(** * Vici Video Editor: the timeline manager (js/timeline.js)

    A shallow embedding of [TimelineManager] and of the parts of the
    application state it reads and writes, followed by the properties of
    clip placement, split, trim, drag and zoom.

    Numbers.  JavaScript numbers that hold times, durations and pixel
    offsets are modelled as exact rationals ([Q]); rounding of IEEE doubles
    is not modelled, so numeric equalities are stated with [==] on [Q].
    Clip ids ([Date.now()]), the zoom level and [pixelsPerSecond]
    ([20 + zoom * 15]) are integers ([Z]).  Where the rounding decides a
    statement, as for the durations a split leaves, the code is modelled
    a second time on binary64 numbers (module [Double]).

    Objects.  Clips are JavaScript objects that are shared between the
    [clips] array, the drag session ([this.dragClip]) and the closures made
    by [startTrim]; they are mutated in place.  The embedding keeps an
    object store ([heap]) and lets arrays and sessions hold references
    (positions in the store), so that a mutation through one reference is
    seen through every other. *)

From Stdlib Require Import ZArith QArith Qminmax Qround Lqa Lia.
From Stdlib Require Import String Ascii DecimalString List Bool.
From Stdlib Require PrimFloat FloatAxioms SpecFloat FloatOps.
From stdpp Require Import base decidable option list list_numbers.
Import ListNotations.

Local Open Scope Z_scope.

(** ** Data model *)

(** The three lanes: ['video'], ['audio'], ['text']. *)
Inductive Track := video | audio | text.

#[global] Instance Track_eq_dec : EqDecision Track.
Proof. solve_decision. Defined.

(** A clip object.  The literals that create clips do not all set the same
    properties ([addClip] sets [trimStart]/[trimEnd], [addTextClip] sets
    [type], the drop handler sets neither); an absent property is [None]. *)
Record Clip := mkClip {
  id : Z;
  mediaId : option Z;
  name : string;
  track : Track;
  startTime : Q;
  duration : Q;
  thumbnail : option string;
  trimStart : option Q;
  trimEnd : option Q;
  type : option string
}.

(** The media item handed to [addClip] and serialised into a drop. *)
Record MediaItem := mkMediaItem {
  m_id : Z;
  m_name : string;
  m_duration : Q;
  m_thumbnail : option string
}.

(** The text overlay handed to [addTextClip] (app.js, [addTextOverlay]). *)
Record Overlay := mkOverlay {
  o_id : Z;
  o_content : string;
  o_startTime : Q;
  o_duration : Q
}.

(** [showToast(message, type)]: the advisory messages an operation emits. *)
Inductive ToastType := success | warning.

Record Toast := mkToast { message : string; toastType : ToastType }.

Inductive Side := left | right.

(** The closure environment of [onTrim], fixed by [startTrim]. *)
Record TrimSession := mkTrim {
  t_clip : nat;
  t_side : Side;
  t_startX : Q;
  t_startWidth : Q;
  t_startLeft : Q
}.

(** A [mousemove] listener on the document: the method [onDrag], or one
    of the [onTrim] closures. *)
Inductive Listener := OnDrag | OnTrim (s : TrimSession).

(** [app.state] (the fields the timeline uses), the fields of the
    [TimelineManager] itself, and the [mousemove] listeners the manager has
    on the document, in the order they were added. *)
Record State := mkState {
  heap : list Clip;
  clips : list nat;
  selectedClip : option Z;
  currentTime : Q;
  zoom : Z;
  pixelsPerSecond : Z;
  isDragging : bool;
  dragClip : option nat;
  dragOffset : Q;
  listeners : list Listener
}.

(** The state after the constructors of [ViciApp] and [TimelineManager]. *)
Definition initial : State :=
  mkState [] [] None 0%Q 5 50 false None 0%Q [].

(** The state with its object store replaced: the effect of an assignment
    to a property of a clip object, which every holder of a reference to
    the object sees. *)
Definition with_heap (st : State) (h : list Clip) : State :=
  mkState h (clips st) (selectedClip st) (currentTime st) (zoom st)
    (pixelsPerSecond st) (isDragging st) (dragClip st) (dragOffset st)
    (listeners st).

(** [this.app.state.clips.push(clip)] for a freshly created object. *)
Definition push (st : State) (c : Clip) : State :=
  mkState (heap st ++ [c]) (clips st ++ [length (heap st)]) (selectedClip st)
    (currentTime st) (zoom st) (pixelsPerSecond st) (isDragging st)
    (dragClip st) (dragOffset st) (listeners st).

(** The clip objects the [clips] array refers to, in array order.  A
    reference taken from the array always resolves (see [wf]); the
    branches of the operations below for a reference that does not are
    there to make the functions total and are never taken. *)
Definition objects (st : State) : list Clip :=
  omap (fun r => heap st !! r) (clips st).

(** [c.startTime = t] and [c.duration = d] on a clip object. *)
Definition set_startTime (c : Clip) (t : Q) : Clip :=
  mkClip (id c) (mediaId c) (name c) (track c) t (duration c) (thumbnail c)
    (trimStart c) (trimEnd c) (type c).

Definition set_duration (c : Clip) (d : Q) : Clip :=
  mkClip (id c) (mediaId c) (name c) (track c) (startTime c) d (thumbnail c)
    (trimStart c) (trimEnd c) (type c).

(** ** Zoom *)

(** [updateZoom(zoomLevel)]; the two render calls do not change the state. *)
Definition updateZoom (st : State) (zoomLevel : Z) : State :=
  mkState (heap st) (clips st) (selectedClip st) (currentTime st) zoomLevel
    (20 + zoomLevel * 15) (isDragging st) (dragClip st) (dragOffset st)
    (listeners st).

(** [initRuler()], [zoomIn()], [zoomOut()], [setZoom(level)]. *)
Definition initRuler (st : State) : State := updateZoom st (zoom st).

Definition zoomIn (st : State) : State :=
  updateZoom st (Z.min 10 (zoom st + 1)).

Definition zoomOut (st : State) : State :=
  updateZoom st (Z.max 1 (zoom st - 1)).

Definition setZoom (st : State) (level : Z) : State := updateZoom st level.

(** The two coordinate conversions as the source writes them:
    [clip.startTime * this.pixelsPerSecond] (renderClip) and
    [newLeft / this.pixelsPerSecond] (onDrag, onTrim, drop). *)
Definition timeToPixels (t : Q) (pps : Z) : Q := (t * inject_Z pps)%Q.

Definition pixelsToTime (x : Q) (pps : Z) : Q := (x / inject_Z pps)%Q.

(** ** Clip store *)

Local Open Scope Q_scope.

(** The end of a clip's interval, [c.startTime + c.duration]. *)
Definition endTime (c : Clip) : Q := startTime c + duration c.

(** JavaScript [x > y] on numbers. *)
Definition Qgtb (x y : Q) : bool := negb (Qle_bool x y).

(** JavaScript [x <= y] and [x >= y] on numbers. *)
Definition Qleb (x y : Q) : bool := Qle_bool x y.
Definition Qgeb (x y : Q) : bool := Qle_bool y x.

(** [Math.max(a, b)]. *)
Definition Math_max (a b : Q) : Q := Qmax a b.

(** The callback of the [reduce] in [getNextAvailablePosition]. *)
Definition later (a b : Clip) : Clip :=
  if Qgtb (endTime a) (endTime b) then a else b.

(** [getNextAvailablePosition(track)].  [reduce] without an initial value
    starts from the first element and folds the callback over the rest. *)
Definition getNextAvailablePosition (st : State) (tr : Track) : Q :=
  let trackClips := filter (fun c => track c = tr) (objects st) in
  match trackClips with
  | [] => 0
  | a :: rest =>
      let lastClip := fold_left later rest a in
      startTime lastClip + duration lastClip
  end.

(** [addClip(mediaItem)]; [now] is the value [Date.now()] returns. *)
Definition addClip (st : State) (mediaItem : MediaItem) (now : Z)
  : State * list Toast :=
  let clip :=
    mkClip now (Some (m_id mediaItem)) (m_name mediaItem) video
      (getNextAvailablePosition st video) (m_duration mediaItem)
      (m_thumbnail mediaItem) (Some 0) (Some 0) None in
  (push st clip, [mkToast "Clip added to timeline" success]).

(** [addTextClip(overlay)].  A JavaScript string is represented by its
    UTF-16 code units, one character of the [string] for each unit (so
    only strings with units below 256 are represented); [substring] and
    [length] then count the same units as the code does. *)
Definition addTextClip (st : State) (overlay : Overlay) : State * list Toast :=
  let clip :=
    mkClip (o_id overlay) None
      (String.append (String.substring 0 20 (o_content overlay)) "...")
      text (o_startTime overlay) (o_duration overlay) None None None
      (Some "text"%string) in
  (push st clip, []).

(** The [drop] listener installed by [setupDragDrop] on the video and audio
    lanes.  [data] is the result of [JSON.parse] ([None] when it throws and
    the [catch] only logs); [tr] is [track.id.replace('Track', '')];
    [rectLeft] is [track.getBoundingClientRect().left]. *)
Definition drop (st : State) (tr : Track) (data : option MediaItem)
    (clientX rectLeft : Q) (now : Z) : State * list Toast :=
  match data with
  | None => (st, [])
  | Some d =>
      let dropX := clientX - rectLeft in
      let dropTime := pixelsToTime dropX (pixelsPerSecond st) in
      let clip :=
        mkClip now (Some (m_id d)) (m_name d) tr (Math_max 0 dropTime)
          (m_duration d) (m_thumbnail d) None None None in
      (push st clip, [])
  end.

(** [selectClip(clipId)]. *)
Definition selectClip (st : State) (clipId : Z) : State :=
  mkState (heap st) (clips st) (Some clipId) (currentTime st) (zoom st)
    (pixelsPerSecond st) (isDragging st) (dragClip st) (dragOffset st)
    (listeners st).

(** [app.updateTime(current, duration)], as far as the timeline reads it. *)
Definition updateTime (st : State) (current : Q) : State :=
  mkState (heap st) (clips st) (selectedClip st) current (zoom st)
    (pixelsPerSecond st) (isDragging st) (dragClip st) (dragOffset st)
    (listeners st).

(** [!selectedId]: [null] and [0] are falsy. *)
Definition truthy (sel : option Z) : option Z :=
  match sel with
  | Some i => if Z.eqb i 0 then None else Some i
  | None => None
  end.

(** [array.findIndex(c => c.id === selectedId)] over an array of
    references; [None] stands for [-1]. *)
Fixpoint findIndex (h : list Clip) (refs : list nat) (selectedId : Z)
  : option nat :=
  match refs with
  | [] => None
  | r :: rest =>
      match h !! r with
      | Some c =>
          if Z.eqb (id c) selectedId then Some 0%nat
          else option_map S (findIndex h rest selectedId)
      | None => option_map S (findIndex h rest selectedId)
      end
  end.

(** [splitClip()]; [now] is the value [Date.now()] returns. *)
Definition splitClip (st : State) (now : Z) : State * list Toast :=
  match truthy (selectedClip st) with
  | None => (st, [mkToast "Select a clip to split" warning])
  | Some selectedId =>
      match findIndex (heap st) (clips st) selectedId with
      | None => (st, [])
      | Some clipIndex =>
          match clips st !! clipIndex with
          | None => (st, [])
          | Some r =>
              match heap st !! r with
              | None => (st, [])
              | Some clip =>
                  let splitTime := currentTime st in
                  if Qleb splitTime (startTime clip)
                     || Qgeb splitTime (startTime clip + duration clip)
                  then (st, [mkToast "Move playhead inside clip to split"
                               warning])
                  else
                    let splitPoint := splitTime - startTime clip in
                    let newClip :=
                      mkClip now (mediaId clip) (name clip) (track clip)
                        splitTime (duration clip - splitPoint)
                        (thumbnail clip) (trimStart clip) (trimEnd clip)
                        (type clip) in
                    let st1 :=
                      with_heap st
                        (<[r := set_duration clip splitPoint]> (heap st)) in
                    (push st1 newClip, [mkToast "Clip split" success])
              end
          end
      end
  end.

(** [deleteSelectedClip()]. *)
Definition deleteSelectedClip (st : State) : State * list Toast :=
  match truthy (selectedClip st) with
  | None => (st, [mkToast "Select a clip to delete" warning])
  | Some selectedId =>
      let keep (r : nat) : bool :=
        match heap st !! r with
        | Some c => negb (Z.eqb (id c) selectedId)
        | None => true
        end in
      (mkState (heap st) (List.filter keep (clips st)) None (currentTime st)
         (zoom st) (pixelsPerSecond st) (isDragging st) (dragClip st)
         (dragOffset st) (listeners st),
       [mkToast "Clip deleted" success])
  end.

(** ** Drag *)

Definition isOnDrag (l : Listener) : bool :=
  match l with OnDrag => true | OnTrim _ => false end.

(** [document.addEventListener('mousemove', f)]: a function that is
    already registered is not registered again.  [onDrag] is one function
    for the life of the manager; every [onTrim] is a new closure. *)
Definition addListener (l : Listener) (ls : list Listener) : list Listener :=
  if isOnDrag l && existsb isOnDrag ls then ls else ls ++ [l].

(** [startDrag(e, clip, clipEl)]: [r] is the clip the listener was made
    for, [elLeft] is [clipEl.getBoundingClientRect().left]. *)
Definition startDrag (st : State) (r : nat) (clientX elLeft : Q) : State :=
  mkState (heap st) (clips st) (selectedClip st) (currentTime st) (zoom st)
    (pixelsPerSecond st) true (Some r) (clientX - elLeft)
    (addListener OnDrag (listeners st)).

(** The start time [onDrag] computes for a pointer at [clientX]. *)
Definition dragTime (st : State) (clientX trackLeft : Q) : Q :=
  let newLeft := clientX - trackLeft - dragOffset st in
  Math_max 0 (pixelsToTime newLeft (pixelsPerSecond st)).

(** [onDrag(e)]; [trackLeft] is [videoTrack.getBoundingClientRect().left]. *)
Definition onDrag (st : State) (clientX trackLeft : Q) : State :=
  if negb (isDragging st) then st
  else
    match dragClip st with
    | None => st
    | Some r =>
        match heap st !! r with
        | None => st
        | Some c =>
            with_heap st
              (<[r := set_startTime c (dragTime st clientX trackLeft)]>
                 (heap st))
        end
    end.

(** [endDrag()]. *)
Definition endDrag (st : State) : State :=
  mkState (heap st) (clips st) (selectedClip st) (currentTime st) (zoom st)
    (pixelsPerSecond st) false None (dragOffset st)
    (List.filter (fun l => negb (isOnDrag l)) (listeners st)).

(** ** Trim *)

(** [startTrim(e, clip, clipEl, side)] up to the point where the listeners
    are installed: the closure remembers the pointer position and the
    clip's geometry in pixels at the current [pixelsPerSecond]. *)
Definition trimSession (st : State) (r : nat) (c : Clip) (side : Side)
    (clientX : Q) : TrimSession :=
  mkTrim r side clientX
    (timeToPixels (duration c) (pixelsPerSecond st))
    (timeToPixels (startTime c) (pixelsPerSecond st)).

(** [startTrim]: the new [onTrim] closure is added to the document. *)
Definition startTrim (st : State) (r : nat) (side : Side) (clientX : Q)
  : State :=
  match heap st !! r with
  | None => st
  | Some c =>
      mkState (heap st) (clips st) (selectedClip st) (currentTime st)
        (zoom st) (pixelsPerSecond st) (isDragging st) (dragClip st)
        (dragOffset st)
        (addListener (OnTrim (trimSession st r c side clientX))
           (listeners st))
  end.

(** What [onTrim(moveE)] does to the clip object it closes over; [pps] is
    [this.pixelsPerSecond] when the pointer moves. *)
Definition trimClip (s : TrimSession) (pps : Z) (clientX : Q) (clip : Clip)
  : Clip :=
  let delta := clientX - t_startX s in
  match t_side s with
  | left =>
      let newLeft := Math_max 0 (t_startLeft s + delta) in
      let newWidth := t_startWidth s - delta in
      if Qgtb newWidth 30 then
        set_duration (set_startTime clip (pixelsToTime newLeft pps))
          (pixelsToTime newWidth pps)
      else clip
  | right =>
      let newWidth := Math_max 30 (t_startWidth s + delta) in
      set_duration clip (pixelsToTime newWidth pps)
  end.

(** The [mousemove] listener [onTrim] on the state. *)
Definition onTrim (st : State) (s : TrimSession) (clientX : Q) : State :=
  match heap st !! t_clip s with
  | None => st
  | Some clip =>
      with_heap st
        (<[t_clip s := trimClip s (pixelsPerSecond st) clientX clip]>
           (heap st))
  end.

(** The [mouseup] listeners [endTrim], one for each [onTrim] that is
    registered: each removes its own [onTrim], so together they remove
    them all. *)
Definition endTrim (st : State) : State :=
  mkState (heap st) (clips st) (selectedClip st) (currentTime st) (zoom st)
    (pixelsPerSecond st) (isDragging st) (dragClip st) (dragOffset st)
    (List.filter isOnDrag (listeners st)).

(** The floor of a trim in seconds, [30 / pixelsPerSecond]. *)
Definition minDurationSeconds (pps : Z) : Q := pixelsToTime 30 pps.

(** The [loadedmetadata] listener of [addBackgroundMusic] in the audio
    manager, the one other place that pushes onto [app.state.clips]:
    [fileName] is [file.name], [audioDuration] is [audio.duration], [now]
    is the value [Date.now()] returns.  (The listener also records the
    track in the audio manager's own list, which the timeline never
    reads.) *)
Definition addBackgroundMusic (st : State) (fileName : string)
    (audioDuration : Q) (now : Z) : State * list Toast :=
  let clip :=
    mkClip now None fileName audio 0 audioDuration None None None
      (Some "audio"%string) in
  (push st clip, [mkToast (String.append "Added: " fileName) success]).

(** ** The timeline as a transition system *)

(** The events that reach the timeline manager.  Pointer events carry the
    coordinates the handlers read; creation events carry the clock value. *)
Inductive Op :=
| OpInitRuler
| OpAddClip (mediaItem : MediaItem) (now : Z)
| OpAddTextClip (overlay : Overlay)
| OpDrop (tr : Track) (data : option MediaItem) (clientX rectLeft : Q)
    (now : Z)
| OpSelectClip (i : nat)
| OpUpdateTime (current : Q)
| OpSplitClip (now : Z)
| OpDeleteSelectedClip
| OpStartDrag (i : nat) (clientX elLeft : Q)
| OpMouseMove (clientX trackLeft : Q)
| OpMouseUp
| OpStartTrim (i : nat) (side : Side) (clientX : Q)
| OpZoomIn
| OpZoomOut
| OpSetZoom (level : Z)
| OpAddBackgroundMusic (fileName : string) (audioDuration : Q) (now : Z).

(** A [mousemove] on the document: the registered listeners run in the
    order they were added, each on the state the previous one left;
    [trackLeft] is [videoTrack.getBoundingClientRect().left]. *)
Definition listen (clientX trackLeft : Q) (st : State) (l : Listener)
  : State :=
  match l with
  | OnDrag => onDrag st clientX trackLeft
  | OnTrim s => onTrim st s clientX
  end.

Definition mouseMove (st : State) (clientX trackLeft : Q) : State :=
  fold_left (listen clientX trackLeft) (listeners st) st.

(** A [mouseup] on the document runs [endDrag] and every [endTrim].
    ([endDrag] is registered only while a drag is on; outside a drag it
    would write the values [isDragging] and [dragClip] already have.) *)
Definition mouseUp (st : State) : State := endTrim (endDrag st).

(** One event.  A clip element exists for every entry of [clips]
    ([renderClips]); [i] names the entry whose element received the
    event.  The [drop] listener exists on the video and audio lanes only,
    so a drop on the text lane reaches no handler. *)
Definition step (st : State) (op : Op) : State * list Toast :=
  match op with
  | OpInitRuler => (initRuler st, [])
  | OpAddClip m now => addClip st m now
  | OpAddTextClip o => addTextClip st o
  | OpDrop tr data x l now =>
      match tr with
      | text => (st, [])
      | _ => drop st tr data x l now
      end
  | OpSelectClip i =>
      match clips st !! i with
      | Some r =>
          match heap st !! r with
          | Some c => (selectClip st (id c), [])
          | None => (st, [])
          end
      | None => (st, [])
      end
  | OpUpdateTime t => (updateTime st t, [])
  | OpSplitClip now => splitClip st now
  | OpDeleteSelectedClip => deleteSelectedClip st
  | OpStartDrag i x l =>
      match clips st !! i with
      | Some r => (startDrag st r x l, [])
      | None => (st, [])
      end
  | OpMouseMove x l => (mouseMove st x l, [])
  | OpMouseUp => (mouseUp st, [])
  | OpStartTrim i side x =>
      match clips st !! i with
      | Some r => (startTrim st r side x, [])
      | None => (st, [])
      end
  | OpZoomIn => (zoomIn st, [])
  | OpZoomOut => (zoomOut st, [])
  | OpSetZoom level => (setZoom st level, [])
  | OpAddBackgroundMusic fileName audioDuration now =>
      addBackgroundMusic st fileName audioDuration now
  end.

(** A run of events, collecting the toasts in order. *)
Fixpoint run (st : State) (ops : list Op) : State * list Toast :=
  match ops with
  | [] => (st, [])
  | op :: rest =>
      let '(st1, ts1) := step st op in
      let '(st2, ts2) := run st1 rest in
      (st2, ts1 ++ ts2)
  end.

(** The states the editor can be in. *)
Definition reachable (st : State) : Prop :=
  exists ops, fst (run initial ops) = st.

(** The ids of the clips in the clip list. *)
Definition ids (st : State) : list Z := map id (objects st).

(** The clock value a creation event stamps on its new clip. *)
Definition stamp (op : Op) : option Z :=
  match op with
  | OpAddClip _ now => Some now
  | OpAddTextClip o => Some (o_id o)
  | OpDrop _ (Some _) _ _ now => Some now
  | OpSplitClip now => Some now
  | OpAddBackgroundMusic _ _ now => Some now
  | _ => None
  end.

(** Every creation event of the run is stamped with a value that differs
    from the id of every clip in the clip list at that moment. *)
Fixpoint fresh_run (st : State) (ops : list Op) : Prop :=
  match ops with
  | [] => True
  | op :: rest =>
      (forall n, stamp op = Some n -> ~ In n (ids st))
      /\ fresh_run (fst (step st op)) rest
  end.

(** The zoom levels a run passes to [setZoom] are all within [lo, hi]. *)
Definition setZoom_within (lo hi : Z) (ops : list Op) : Prop :=
  forall level, In (OpSetZoom level) ops -> (lo <= level <= hi)%Z.

(** Every reference in the clip list points into the object store. *)
Definition wf (st : State) : Prop :=
  Forall (fun r => (r < length (heap st))%nat) (clips st).

(** [p] is the largest end time among the clips of [l], or 0 when [l] is
    empty. *)
Definition is_max_end (l : list Clip) (p : Q) : Prop :=
  match l with
  | [] => p = 0
  | _ :: _ =>
      (exists x, In x l /\ p = endTime x) /\ forall x, In x l -> endTime x <= p
  end.

(** The width in pixels a pointer at [clientX] asks of a trim session,
    before any floor is applied. *)
Definition requestedWidth (s : TrimSession) (clientX : Q) : Q :=
  match t_side s with
  | left => t_startWidth s - (clientX - t_startX s)
  | right => t_startWidth s + (clientX - t_startX s)
  end.

(** The two ways [splitClip] refuses with an advisory message: nothing is
    selected, or the selected clip (the first clip of the list that carries
    the selected id) does not have the playhead strictly inside it. *)
Inductive SplitRefused (st : State) : Toast -> Prop :=
| NoSelection :
    truthy (selectedClip st) = None ->
    SplitRefused st (mkToast "Select a clip to split" warning)
| OutsideClip (selectedId : Z) (clipIndex r : nat) (clip : Clip) :
    truthy (selectedClip st) = Some selectedId ->
    findIndex (heap st) (clips st) selectedId = Some clipIndex ->
    clips st !! clipIndex = Some r ->
    heap st !! r = Some clip ->
    currentTime st <= startTime clip
    \/ startTime clip + duration clip <= currentTime st ->
    SplitRefused st (mkToast "Move playhead inside clip to split" warning).

(** ** Scenarios *)

Definition itemA : MediaItem := mkMediaItem 1 "a.mp4" 10 None.

(** The clip [addClip] makes of [itemA] at clock value 1000 on an empty
    video track: it spans [0, 10). *)
Definition clipA : Clip :=
  mkClip 1000 (Some 1%Z) "a.mp4" video 0 10 None (Some 0) (Some 0) None.

(** Clip A is on the timeline and selected; the playhead is at [t]. *)
Definition selectedA (t : Q) : State :=
  fst (run initial
         [OpInitRuler; OpAddClip itemA 1000; OpSelectClip 0; OpUpdateTime t]).

(** Clip A is on the timeline and the selection holds the id 77, which no
    clip carries. *)
Definition staleSelection : State := selectClip (selectedA 4) 77.

(** A right-handle trim of clip A is under way, begun with the pointer at
    x = 1000 (at 95 pixels per second clip A is 950 pixels wide). *)
Definition trimmingRightA : State :=
  fst (step (selectedA 4) (OpStartTrim 0 right 1000)).

(** A text clip spanning [1, 6) is on the timeline and a left-handle
    trim of it is under way, begun with the pointer at x = 200 (the clip's
    left edge is at 95 pixels, its width is 475 pixels). *)
Definition trimmingLeftText : State :=
  fst (run initial
         [OpInitRuler; OpUpdateTime 1;
          OpAddTextClip (mkOverlay 3000 "Title" 1 5);
          OpStartTrim 0 left 200]).

(** ** Time labels *)

(** [Math.floor(x)]. *)
Definition Math_floor (x : Q) : Z := Qfloor x.

(** [Math.min(a, b)]. *)
Definition Math_min (a b : Q) : Q := Qmin a b.

(** The integer part of [x], rounded toward zero. *)
Definition Qtrunc (x : Q) : Z := Z.quot (Qnum x) (Zpos (Qden x)).

(** JavaScript [x % y] for [y] other than 0: the remainder has the sign of
    [x]. *)
Definition jsRem (x y : Q) : Q := x - y * inject_Z (Qtrunc (x / y)).

(** [n.toString()] and [`${n}`] for an integer [n] of a size JavaScript
    prints in full (below 10^21 in absolute value, and exact as a double):
    decimal digits, with a minus sign for a negative number. *)
Definition Number_toString (n : Z) : string :=
  NilZero.string_of_int (Z.to_int n).

Fixpoint repeatChar (n : nat) (c : ascii) : string :=
  match n with
  | O => EmptyString
  | S k => String c (repeatChar k c)
  end.

(** [s.padStart(targetLength, pad)] for a pad string of one character. *)
Definition padStart (targetLength : nat) (pad : ascii) (s : string) : string :=
  String.append (repeatChar (targetLength - String.length s) pad) s.

(** [formatTime(seconds)] of the timeline manager; [formatDuration] of the
    video manager has the same body. *)
Definition formatTime (seconds : Q) : string :=
  let mins := Math_floor (seconds / 60) in
  let secs := Math_floor (jsRem seconds 60) in
  String.append (Number_toString mins)
    (String.append ":" (padStart 2 "0" (Number_toString secs))).

(** [formatTime(seconds)] of the application, which pads the minutes too. *)
Definition app_formatTime (seconds : Q) : string :=
  let mins := Math_floor (seconds / 60) in
  let secs := Math_floor (jsRem seconds 60) in
  String.append (padStart 2 "0" (Number_toString mins))
    (String.append ":" (padStart 2 "0" (Number_toString secs))).

(** ** Ruler *)

(** A mark of the ruler: a labelled major mark or a minor mark, each with
    its [style.left] in pixels. *)
Inductive RulerMark :=
| MajorMark (left : Q) (label : string)
| MinorMark (left : Q).

Definition isMajor (m : RulerMark) : bool :=
  match m with MajorMark _ _ => true | MinorMark _ => false end.

(** [this.app.state.duration || 60]. *)
Definition durationOrDefault (stateDuration : Q) : Q :=
  if Qeq_bool stateDuration 0 then 60 else stateDuration.

(** The distance in seconds between labelled marks. *)
Definition tickInterval (zoomLevel : Z) : Z :=
  if (zoomLevel <? 3)%Z then 10%Z else if (zoomLevel <? 6)%Z then 5%Z else 1%Z.

(** [80 + time * this.pixelsPerSecond]: the offset of second [time]. *)
Definition markLeft (pps time : Z) : Q := 80 + inject_Z time * inject_Z pps.

(** The inner loop, [for (minor = 1; minor < interval; minor++)]. *)
Definition minorMarks (pps interval time : Z) : list RulerMark :=
  map (fun minor => MinorMark (markLeft pps (time + minor)))
    (seqZ 1 (interval - 1)).

(** The outer loop, [for (time = 0; time <= duration; time += interval)],
    from the value [time] on; [fuel] bounds the number of rounds. *)
Fixpoint rulerLoop (fuel : nat) (pps interval : Z) (duration : Q) (time : Z)
  : list RulerMark :=
  match fuel with
  | O => []
  | S fuel' =>
      if Qleb (inject_Z time) duration then
        MajorMark (markLeft pps time) (formatTime (inject_Z time))
        :: (if (5 <=? interval)%Z then minorMarks pps interval time else [])
        ++ rulerLoop fuel' pps interval duration (time + interval)
      else []
  end.

(** [renderRuler()]: the ruler's [style.width] and its marks.
    [stateDuration] is [this.app.state.duration].  The time advances by at
    least one second a round, so [floor(duration) + 1] rounds are enough
    for the loop to reach its exit. *)
Definition renderRuler (st : State) (stateDuration : Q)
  : Q * list RulerMark :=
  let duration := durationOrDefault stateDuration in
  let width := duration * inject_Z (pixelsPerSecond st) in
  let interval := tickInterval (zoom st) in
  (width + 80,
   rulerLoop (Z.to_nat (Qfloor duration) + 1) (pixelsPerSecond st) interval
     duration 0).

(** ** Clip elements *)

(** The element [renderClip] builds for a clip, as far as it depends on
    the clip and the state: the lane it is appended to, its classes, its
    geometry and the duration it shows. *)
Record ClipEl := mkEl {
  dataset_id : Z;
  lane : Track;
  className : string;
  el_selected : bool;
  style_left : Q;
  style_width : Q;
  clip_name : string;
  clip_duration : string
}.

(** [this.app.state.selectedClip === clip.id]. *)
Definition isSelected (st : State) (clip : Clip) : bool :=
  match selectedClip st with
  | Some s => Z.eqb s (id clip)
  | None => false
  end.

(** [renderClip(clip)]. *)
Definition renderClip (st : State) (clip : Clip) : ClipEl :=
  let lane :=
    match track clip with
    | video => video
    | audio => audio
    | text => text
    end in
  let className :=
    match type clip with
    | Some t =>
        if String.eqb t "text" then "clip clip-text"%string
        else match track clip with
             | audio => "clip clip-audio"%string
             | _ => "clip "%string
             end
    | None =>
        match track clip with
        | audio => "clip clip-audio"%string
        | _ => "clip "%string
        end
    end in
  mkEl (id clip) lane className (isSelected st clip)
    (timeToPixels (startTime clip) (pixelsPerSecond st))
    (timeToPixels (duration clip) (pixelsPerSecond st))
    (name clip) (formatTime (duration clip)).

(** [renderClips()]: the lanes are emptied and every clip of the list is
    rendered, in list order. *)
Definition renderClips (st : State) : list ClipEl :=
  map (renderClip st) (objects st).

(** ** Callers in the application *)

(** [loadVideo(item)] of the video manager, as far as the timeline is
    concerned: the item is put on the timeline unless a clip of the list
    already carries its id as [mediaId]. *)
Definition hasMedia (item : MediaItem) (c : Clip) : bool :=
  match mediaId c with
  | Some m => Z.eqb m (m_id item)
  | None => false
  end.

Definition loadVideo (st : State) (item : MediaItem) (now : Z)
  : State * list Toast :=
  if existsb (hasMedia item) (objects st) then (st, [])
  else addClip st item now.

(** The [Delete]/[Backspace] branch of the keyboard handler. *)
Definition keyDelete (st : State) : State * list Toast :=
  match truthy (selectedClip st) with
  | Some _ => deleteSelectedClip st
  | None => (st, [])
  end.

(** The preview video element: whether it has a source, its playback
    position and its duration. *)
Record Video := mkVideo {
  hasSrc : bool;
  v_currentTime : Q;
  v_duration : Q
}.

(** The application: the timeline state, [state.duration],
    [state.textOverlays], the video element and the flag [isDragging] of
    [setupPlayheadDrag]. *)
Record App := mkApp {
  timeline : State;
  stateDuration : Q;
  textOverlays : list Overlay;
  videoEl : Video;
  rulerDragging : bool
}.

(** [seekTo(time)] of the video manager. *)
Definition seekTo (v : Video) (time : Q) : Video :=
  if hasSrc v then mkVideo (hasSrc v) time (v_duration v) else v.

(** [skip(seconds)] of the video manager. *)
Definition skip (v : Video) (seconds : Q) : Video :=
  if hasSrc v then
    mkVideo (hasSrc v)
      (Math_max 0 (Math_min (v_duration v) (v_currentTime v + seconds)))
      (v_duration v)
  else v.

(** The time [movePlayhead] computes for a pointer at [clientX];
    [rectLeft] is [ruler.getBoundingClientRect().left]. *)
Definition playheadTime (st : State) (clientX rectLeft : Q) : Q :=
  let x := clientX - rectLeft - 80 in
  Math_max 0 (pixelsToTime x (pixelsPerSecond st)).

(** [movePlayhead(e)]. *)
Definition movePlayhead (a : App) (clientX rectLeft : Q) : App :=
  let time := playheadTime (timeline a) clientX rectLeft in
  if Qleb time (stateDuration a) then
    mkApp (timeline a) (stateDuration a) (textOverlays a)
      (seekTo (videoEl a) time) (rulerDragging a)
  else a.


Definition playheadMouseMove (a : App) (clientX rectLeft : Q) : App :=
  if rulerDragging a then movePlayhead a clientX rectLeft else a.

Definition playheadMouseUp (a : App) : App :=
  mkApp (timeline a) (stateDuration a) (textOverlays a) (videoEl a) false.



(** ** Inputs *)

(** The events whose numbers are what the editor's sources supply: the
    duration of a media item, an overlay or an audio file is not negative,
    an overlay starts at a time that is not negative, and a zoom level is
    at least -1 (from where on [20 + level * 15] is positive). *)
Definition plausible (op : Op) : Prop :=
  match op with
  | OpAddClip m _ => 0 <= m_duration m
  | OpAddTextClip o => 0 <= o_startTime o /\ 0 <= o_duration o
  | OpDrop _ (Some d) _ _ _ => 0 <= m_duration d
  | OpSetZoom level => (-1 <= level)%Z
  | OpAddBackgroundMusic _ audioDuration _ => 0 <= audioDuration
  | _ => True
  end.

(** No clip object has a negative start or a negative duration. *)
Definition clips_nonnegative (st : State) : Prop :=
  Forall (fun c => 0 <= startTime c /\ 0 <= duration c) (heap st).

(** The density is positive, the zoom level is at least -1, and no clip
    object has a negative start or duration. *)
Definition nonnegative_state (st : State) : Prop :=
  (0 < pixelsPerSecond st)%Z /\ (-1 <= zoom st)%Z /\ clips_nonnegative st.

(** ** The split in double precision *)

(** [splitClip] once more, with times and durations as IEEE 754 binary64
    numbers and JavaScript's arithmetic and comparisons on them, for the
    statements in which rounding matters.  The state is cut down to what
    [splitClip] reads and writes: the clip objects, the clip list, the
    selection and the playhead time. *)
Module Double.

Import PrimFloat.
#[local] Set Warnings "-inexact-float".
Local Open Scope float_scope.

Record Clip := mkClip {
  id : Z;
  mediaId : option Z;
  name : string;
  track : Track;
  startTime : float;
  duration : float;
  thumbnail : option string;
  trimStart : option float;
  trimEnd : option float;
  type : option string
}.

Record State := mkState {
  heap : list Clip;
  clips : list nat;
  selectedClip : option Z;
  currentTime : float
}.

Definition with_heap (st : State) (h : list Clip) : State :=
  mkState h (clips st) (selectedClip st) (currentTime st).

Definition push (st : State) (c : Clip) : State :=
  mkState (heap st ++ [c]) (clips st ++ [length (heap st)]) (selectedClip st)
    (currentTime st).

Definition objects (st : State) : list Clip :=
  omap (fun r => heap st !! r) (clips st).

Definition ids (st : State) : list Z := map id (objects st).

Definition wf (st : State) : Prop :=
  Forall (fun r => (r < length (heap st))%nat) (clips st).

Definition set_duration (c : Clip) (d : float) : Clip :=
  mkClip (id c) (mediaId c) (name c) (track c) (startTime c) d (thumbnail c)
    (trimStart c) (trimEnd c) (type c).

Fixpoint findIndex (h : list Clip) (refs : list nat) (selectedId : Z)
  : option nat :=
  match refs with
  | [] => None
  | r :: rest =>
      match h !! r with
      | Some c =>
          if Z.eqb (id c) selectedId then Some 0%nat
          else option_map S (findIndex h rest selectedId)
      | None => option_map S (findIndex h rest selectedId)
      end
  end.

(** [splitClip()]; [<=?] is JavaScript's [<=] on numbers, and
    [splitTime >= x] is [x <= splitTime]. *)
Definition splitClip (st : State) (now : Z) : State * list Toast :=
  match truthy (selectedClip st) with
  | None => (st, [mkToast "Select a clip to split" warning])
  | Some selectedId =>
      match findIndex (heap st) (clips st) selectedId with
      | None => (st, [])
      | Some clipIndex =>
          match clips st !! clipIndex with
          | None => (st, [])
          | Some r =>
              match heap st !! r with
              | None => (st, [])
              | Some clip =>
                  let splitTime := currentTime st in
                  if (splitTime <=? startTime clip)
                     || (startTime clip + duration clip <=? splitTime)
                  then (st, [mkToast "Move playhead inside clip to split"
                               warning])
                  else
                    let splitPoint := splitTime - startTime clip in
                    let newClip :=
                      mkClip now (mediaId clip) (name clip) (track clip)
                        splitTime (duration clip - splitPoint)
                        (thumbnail clip) (trimStart clip) (trimEnd clip)
                        (type clip) in
                    let st1 :=
                      with_heap st
                        (<[r := set_duration clip splitPoint]> (heap st)) in
                    (push st1 newClip, [mkToast "Clip split" success])
              end
          end
      end
  end.

(** A clip with id 1000 that spans [0, d) is alone on the timeline and
    selected; the playhead is at [t]. *)
Definition clipOf (d : float) : Clip :=
  mkClip 1000 (Some 1%Z) "a.mp4" video 0 d None (Some 0) (Some 0) None.

Definition selected (d t : float) : State :=
  mkState [clipOf d] [0%nat] (Some 1000%Z) t.

(** The clip [0, 10) with the playhead at 4, and the clip [0, 1.8) with
    the playhead at 0.384. *)
Definition tenAtFour : State := selected 10 4.
Definition shortAtFraction : State := selected 1.8 0.384.

(** The clip [0, 10) and what the split at 4 leaves of it. *)
Definition tenClip : Clip := clipOf 10.
Definition tenAfterSplit : Clip := set_duration tenClip (4 - 0).

End Double.

(** * Properties *)

(** ** Zoom and the time/pixel mapping *)

Lemma updateZoom_zoom (st : State) (z : Z) : zoom (updateZoom st z) = z.
Proof. reflexivity. Qed.

Lemma updateZoom_pps (st : State) (z : Z) :
  pixelsPerSecond (updateZoom st z) = (20 + z * 15)%Z.
Proof. reflexivity. Qed.

Lemma inject_Z_nonzero (p : Z) : (p <> 0)%Z -> ~ inject_Z p == 0.
Proof.
  intros Hp H. apply Hp. unfold Qeq in H. simpl in H. lia.
Qed.

Lemma inject_Z_pos (p : Z) : (0 < p)%Z -> 0 < inject_Z p.
Proof. intros Hp. unfold Qlt. simpl. lia. Qed.

(** Converting a time to pixels and back is the identity whenever
    [pixelsPerSecond] is not zero. *)
Lemma roundtrip (t : Q) (pps : Z) :
  (pps <> 0)%Z -> pixelsToTime (timeToPixels t pps) pps == t.
Proof.
  intros Hp. unfold pixelsToTime, timeToPixels.
  apply Qdiv_mult_l. now apply inject_Z_nonzero.
Qed.

(** C5.  For zoom levels [z], [z'] in [1,10], [updateZoom] sets
    [pixelsPerSecond] to [20 + z * 15]; the mapping is strictly increasing
    ([z < z'] exactly when the densities are so ordered); and for [t >= 0]
    converting [t] to pixels (multiplication) and back (division) returns
    [t], exactly so in rational arithmetic; in particular [onDrag]'s
    [Math.max(0, left / pixelsPerSecond)] applied to the pixel offset at
    which [renderClip] draws a clip returns the clip's start time. *)
Theorem zoom_mapping (st : State) (z z' : Z) (t : Q) :
  (1 <= z <= 10)%Z -> (1 <= z' <= 10)%Z -> 0 <= t ->
  let pps := pixelsPerSecond (updateZoom st z) in
  let pps' := pixelsPerSecond (updateZoom st z') in
  pps = (20 + z * 15)%Z
  /\ pixelsPerSecond (setZoom st z) = pps
  /\ ((z < z')%Z <-> (pps < pps')%Z)
  /\ timeToPixels t pps == t * inject_Z pps
  /\ pixelsToTime (timeToPixels t pps) pps == t
  /\ Math_max 0 (pixelsToTime (timeToPixels t pps) pps) == t.
Proof.
  intros Hz Hz' Ht pps pps'. subst pps pps'.
  rewrite !updateZoom_pps.
  assert (Hr : pixelsToTime (timeToPixels t (20 + z * 15)) (20 + z * 15)
               == t) by (apply roundtrip; lia).
  split; [reflexivity|]. split; [reflexivity|]. split; [lia|].
  split; [reflexivity|]. split; [exact Hr|].
  unfold Math_max. rewrite Q.max_r; [exact Hr|]. now rewrite Hr.
Qed.

Lemma zoom_mapping_witness :
  pixelsPerSecond (updateZoom initial 5) = 95%Z
  /\ pixelsToTime (timeToPixels (7 # 2) 95) 95 == 7 # 2.
Proof.
  destruct (zoom_mapping initial 5 6 (7 # 2)) as (H1 & _ & _ & _ & H2 & _).
  - lia.
  - lia.
  - unfold Qle; simpl; lia.
  - split; [exact H1 | exact H2].
Defined.

(** A property that every listener preserves holds after a [mousemove]. *)
Lemma mouseMove_preserves (P : State -> Prop) (st : State) (x l : Q) :
  (forall st', P st' -> P (onDrag st' x l)) ->
  (forall st' s, P st' -> P (onTrim st' s x)) ->
  P st -> P (mouseMove st x l).
Proof.
  intros Hd Ht. unfold mouseMove. generalize (listeners st). intros ls.
  revert st. induction ls as [|[|s] ls IH]; intros st H; simpl.
  - exact H.
  - apply IH. now apply Hd.
  - apply IH. now apply Ht.
Qed.

Lemma mouseMove_zoom (st : State) (x l : Q) :
  zoom (mouseMove st x l) = zoom st.
Proof.
  apply (mouseMove_preserves (fun st' => zoom st' = zoom st));
    [intros st' H | intros st' s H | reflexivity].
  - rewrite <- H. unfold onDrag. repeat case_match; reflexivity.
  - rewrite <- H. unfold onTrim. repeat case_match; reflexivity.
Qed.

(** Only the zoom events change the zoom level. *)
Lemma step_zoom (st : State) (op : Op) :
  zoom (fst (step st op)) =
  match op with
  | OpZoomIn => Z.min 10 (zoom st + 1)
  | OpZoomOut => Z.max 1 (zoom st - 1)
  | OpSetZoom level => level
  | _ => zoom st
  end.
Proof.
  destruct op; simpl; try apply mouseMove_zoom;
    unfold addClip, drop, splitClip, deleteSelectedClip, startTrim,
      addBackgroundMusic;
    repeat case_match; reflexivity.
Qed.

Lemma run_cons (st : State) (op : Op) (ops : list Op) :
  fst (run st (op :: ops)) = fst (run (fst (step st op)) ops).
Proof.
  simpl. destruct (step st op) as [st1 ts1]. simpl.
  destruct (run st1 ops); reflexivity.
Qed.

(** C7 (as the code has it).  [zoomIn] and [zoomOut] keep a zoom level
    that is in [1,10] in [1,10]; [setZoom] stores the level it is given.
    So after any run of events from a state with zoom in [1,10], the zoom
    level is in [1,10] provided every level passed to [setZoom] is. *)
Theorem zoom_bounded (st : State) (ops : list Op) :
  (1 <= zoom st <= 10)%Z ->
  setZoom_within 1 10 ops ->
  (1 <= zoom (fst (run st ops)) <= 10)%Z.
Proof.
  revert st. induction ops as [|op ops IH]; intros st Hz Hs.
  - exact Hz.
  - rewrite run_cons. apply IH.
    + rewrite step_zoom. destruct op; try exact Hz; try lia.
      apply Hs. now constructor.
    + intros level Hin. apply Hs. now constructor 2.
Qed.

Lemma zoom_bounded_witness :
  (1 <= zoom (fst (run initial [OpZoomIn; OpSetZoom 10; OpZoomIn; OpZoomOut]))
   <= 10)%Z.
Proof.
  apply zoom_bounded.
  - simpl; lia.
  - intros level [H|[H|[H|[H|[]]]]]; inversion H; lia.
Defined.

(** C7 (as stated) fails: [setZoom(11)] from the initial zoom 5 stores 11. *)
Lemma setZoom_unbounded :
  ~ (forall (st : State) (ops : list Op),
       (1 <= zoom st <= 10)%Z ->
       (1 <= zoom (fst (run st ops)) <= 10)%Z).
Proof.
  intros H. specialize (H initial [OpSetZoom 11]). simpl in H. lia.
Qed.

(** ** The object store *)

Lemma Qgtb_true (x y : Q) : Qgtb x y = true <-> y < x.
Proof.
  unfold Qgtb. rewrite negb_true_iff, <- not_true_iff_false, Qle_bool_iff.
  split; [apply Qnot_le_lt | apply Qlt_not_le].
Qed.

Lemma Qgtb_false (x y : Q) : Qgtb x y = false <-> x <= y.
Proof.
  unfold Qgtb. rewrite negb_false_iff. apply Qle_bool_iff.
Qed.

Lemma Qleb_true (x y : Q) : Qleb x y = true <-> x <= y.
Proof. apply Qle_bool_iff. Qed.

Lemma Qgeb_true (x y : Q) : Qgeb x y = true <-> y <= x.
Proof. apply Qle_bool_iff. Qed.

Lemma objects_ext (h h' : list Clip) (refs : list nat) :
  Forall (fun r => h' !! r = h !! r) refs ->
  omap (fun r => h' !! r) refs = omap (fun r => h !! r) refs.
Proof.
  induction 1 as [|r refs Hr _ IH]; [reflexivity|].
  change (match h' !! r with
          | Some c => c :: omap (fun r => h' !! r) refs
          | None => omap (fun r => h' !! r) refs
          end =
          match h !! r with
          | Some c => c :: omap (fun r => h !! r) refs
          | None => omap (fun r => h !! r) refs
          end).
  rewrite Hr, IH. reflexivity.
Qed.

(** Pushing a fresh object appends it to the clips the list refers to. *)
Lemma objects_push (st : State) (c : Clip) :
  wf st -> objects (push st c) = objects st ++ [c].
Proof.
  intros Hwf. unfold objects, push; simpl.
  rewrite omap_app. f_equal.
  - apply objects_ext. eapply Forall_impl; [exact Hwf|].
    intros r Hr. simpl in Hr. now apply lookup_app_l.
  - simpl. rewrite list_lookup_middle by reflexivity. reflexivity.
Qed.

Lemma wf_push (st : State) (c : Clip) : wf st -> wf (push st c).
Proof.
  unfold wf, push; simpl. intros Hwf. rewrite Forall_app. split.
  - eapply Forall_impl; [exact Hwf|]. intros r Hr. simpl in Hr.
    rewrite length_app. simpl. lia.
  - repeat constructor. rewrite length_app. simpl. lia.
Qed.

Lemma wf_with_heap (st : State) (h : list Clip) :
  length h = length (heap st) -> wf st -> wf (with_heap st h).
Proof. unfold wf; simpl. intros ->. trivial. Qed.

(** ** Placement of added clips *)

(** The [reduce] of [getNextAvailablePosition] returns an element of the
    array whose end time is not exceeded by any other. *)
Lemma reduce_later (rest : list Clip) (a : Clip) :
  let m := fold_left later rest a in
  In m (a :: rest) /\ forall x, In x (a :: rest) -> endTime x <= endTime m.
Proof.
  revert a. induction rest as [|b rest IH]; intros a; simpl.
  - split; [now left|]. intros x [<-|[]]. apply Qle_refl.
  - destruct (IH (later a b)) as [Hin Hmax]. simpl in Hin, Hmax.
    assert (Hab : later a b = a /\ endTime b <= endTime a
                  \/ later a b = b /\ endTime a <= endTime b).
    { unfold later. destruct (Qgtb (endTime a) (endTime b)) eqn:E.
      - left. split; [reflexivity|]. apply Qgtb_true in E.
        now apply Qlt_le_weak.
      - right. split; [reflexivity|]. now apply Qgtb_false in E. }
    split.
    + destruct Hin as [Hin|Hin]; [|now right; right].
      rewrite <- Hin. destruct Hab as [[-> _]|[-> _]]; [now left|].
      right; now left.
    + intros x [<-|[<-|Hx]].
      * eapply Qle_trans; [|apply Hmax; now left].
        destruct Hab as [[-> _]|[-> H]]; [apply Qle_refl|exact H].
      * eapply Qle_trans; [|apply Hmax; now left].
        destruct Hab as [[-> H]|[-> _]]; [exact H|apply Qle_refl].
      * apply Hmax. now right.
Qed.

(** [getNextAvailablePosition(track)] is the largest end time on the
    track, or 0 on an empty track, for every track. *)
Lemma getNextAvailablePosition_max (st : State) (tr : Track) :
  is_max_end (filter (fun c => track c = tr) (objects st))
    (getNextAvailablePosition st tr).
Proof.
  unfold getNextAvailablePosition.
  destruct (filter _ (objects st)) as [|a rest]; simpl; [reflexivity|].
  destruct (reduce_later rest a) as [Hin Hmax]. split.
  - exists (fold_left later rest a). split; [exact Hin | reflexivity].
  - exact Hmax.
Qed.




(** ** Split *)

Lemma findIndex_Some (h : list Clip) (refs : list nat) (sid : Z) (i : nat) :
  findIndex h refs sid = Some i ->
  exists r c, refs !! i = Some r /\ h !! r = Some c /\ id c = sid.
Proof.
  revert i. induction refs as [|r refs IH]; intros i; simpl; [discriminate|].
  destruct (h !! r) as [c|] eqn:Hr.
  - destruct (Z.eqb (id c) sid) eqn:E.
    + intros [= <-]. exists r, c. apply Z.eqb_eq in E. auto.
    + destruct (findIndex h refs sid) as [j|]; simpl; [|discriminate].
      intros [= <-]. apply (IH j eq_refl).
  - destruct (findIndex h refs sid) as [j|]; simpl; [|discriminate].
    intros [= <-]. apply (IH j eq_refl).
Qed.

Lemma findIndex_None (h : list Clip) (refs : list nat) (sid : Z) :
  findIndex h refs sid = None <->
  ~ In sid (map id (omap (fun r => h !! r) refs)).
Proof.
  induction refs as [|r refs IH].
  - simpl. split; [intros _ []|reflexivity].
  - change (omap (fun r => h !! r) (r :: refs))
      with (match h !! r with
            | Some c => c :: omap (fun r => h !! r) refs
            | None => omap (fun r => h !! r) refs
            end).
    simpl. destruct (h !! r) as [c|].
    + destruct (Z.eqb (id c) sid) eqn:E.
      * apply Z.eqb_eq in E. split; [discriminate|].
        intros H. exfalso. apply H. now left.
      * apply Z.eqb_neq in E.
        destruct (findIndex h refs sid) as [j|]; simpl.
        -- split; [discriminate|]. intros H. exfalso.
           destruct IH as [_ IH]. discriminate IH.
           intros Hin. apply H. now right.
        -- split; [|reflexivity]. intros _ [Heq|Hin]; [contradiction|].
           destruct IH as [IH _]. now apply IH.
    + destruct (findIndex h refs sid) as [j|]; simpl.
      * split; [discriminate|]. intros H. destruct IH as [_ IH].
        discriminate IH. exact H.
      * split; [|reflexivity]. intros _. now apply IH.
Qed.

(** C4.  With nothing selected, or with the playhead at or before the
    start of the selected clip or at or after its end, [splitClip] leaves
    the whole state as it is (clip list, every clip object, selection) and
    emits exactly one advisory message of type warning. *)
Theorem splitClip_refused (st : State) (now : Z) (msg : Toast) :
  SplitRefused st msg ->
  splitClip st now = (st, [msg])
  /\ toastType msg = warning
  /\ objects (fst (splitClip st now)) = objects st.
Proof.
  intros H.
  assert (Hs : splitClip st now = (st, [msg])).
  { destruct H as [Hsel | sid i r c Hsel Hfind Hi Hr Hout].
    - unfold splitClip. rewrite Hsel. reflexivity.
    - unfold splitClip. rewrite Hsel, Hfind, Hi, Hr.
      assert (E : Qleb (currentTime st) (startTime c)
                  || Qgeb (currentTime st) (startTime c + duration c)
                  = true).
      { apply orb_true_iff. rewrite Qleb_true, Qgeb_true. exact Hout. }
      rewrite E. reflexivity. }
  rewrite Hs. split; [reflexivity|]. split; [|reflexivity].
  destruct H; reflexivity.
Qed.

Lemma splitClip_refused_witness :
  splitClip (selectedA 10) 2000 =
    (selectedA 10, [mkToast "Move playhead inside clip to split" warning])
  /\ splitClip initial 2000 =
       (initial, [mkToast "Select a clip to split" warning]).
Proof.
  split.
  - apply (splitClip_refused (selectedA 10) 2000).
    apply (OutsideClip _ 1000 0 0 clipA); try reflexivity.
    right. discriminate.
  - apply (splitClip_refused initial 2000).
    apply NoSelection. reflexivity.
Defined.

(** C10.  When the selection holds an id that no clip of the list
    carries, [splitClip] returns with the state as it was and emits no
    message at all, unlike the two refusals above, which each emit one. *)
Theorem splitClip_stale (st : State) (now selectedId : Z) :
  truthy (selectedClip st) = Some selectedId ->
  ~ In selectedId (ids st) ->
  splitClip st now = (st, []).
Proof.
  intros Hsel Hnot. unfold splitClip. rewrite Hsel.
  apply findIndex_None in Hnot. rewrite Hnot. reflexivity.
Qed.

Lemma splitClip_stale_witness :
  splitClip staleSelection 2000 = (staleSelection, []).
Proof.
  apply (splitClip_stale staleSelection 2000 77).
  - reflexivity.
  - simpl. intros [H|[]]. discriminate H.
Defined.

(** ** Drag and drop *)

Lemma Math_max_0_nonneg (x : Q) : 0 <= Math_max 0 x.
Proof. apply Q.le_max_l. Qed.

(** C9.  While a drag is on, [onDrag] sets the dragged clip's [startTime]
    to the requested time (pointer position converted to seconds) clamped
    below at 0, whatever the request: it is never negative, it is the
    request itself when that is not negative and 0 otherwise, and nothing
    else about the clip or any other clip changes; the move emits no
    message.  The drop handler places its new clip the same way. *)
Theorem onDrag_clamps (st : State) (clientX trackLeft : Q) (r : nat)
    (c : Clip) :
  isDragging st = true -> dragClip st = Some r -> heap st !! r = Some c ->
  let requested :=
    pixelsToTime (clientX - trackLeft - dragOffset st) (pixelsPerSecond st) in
  let st' := onDrag st clientX trackLeft in
  let c' := set_startTime c (Math_max 0 requested) in
  st' = with_heap st (<[r := c']> (heap st))
  /\ heap st' !! r = Some c'
  /\ 0 <= startTime c'
  /\ (0 <= requested -> startTime c' == requested)
  /\ (requested <= 0 -> startTime c' == 0)
  /\ (forall r', r' <> r -> heap st' !! r' = heap st !! r')
  /\ snd (step st (OpMouseMove clientX trackLeft)) = []
  /\ (forall tr d x l now,
        exists n,
          drop st tr (Some d) x l now = (push st n, [])
          /\ startTime n =
               Math_max 0 (pixelsToTime (x - l) (pixelsPerSecond st))
          /\ 0 <= startTime n).
Proof.
  intros Hd Hc Hr requested st' c'.
  assert (Hst : st' = with_heap st (<[r := c']> (heap st))).
  { subst st'. unfold onDrag. rewrite Hd, Hc, Hr. reflexivity. }
  split; [exact Hst|]. rewrite Hst. simpl.
  split.
  { apply list_lookup_insert_eq. eapply lookup_lt_Some; exact Hr. }
  split; [apply Math_max_0_nonneg|].
  split; [intros H; now apply Q.max_r|].
  split; [intros H; now apply Q.max_l|].
  split.
  { intros r' Hne. apply list_lookup_insert_ne. congruence. }
  split; [reflexivity|].
  intros tr d x l now. eexists. split; [reflexivity|]. simpl.
  split; [reflexivity | apply Math_max_0_nonneg].
Qed.

Lemma onDrag_clamps_witness :
  let st := fst (step (selectedA 4) (OpStartDrag 0 100 0)) in
  heap (onDrag st 50 0) !! 0%nat =
    Some (set_startTime clipA (Math_max 0 (pixelsToTime (50 - 0 - (100 - 0)) 95)))
  /\ Math_max 0 (pixelsToTime (50 - 0 - (100 - 0)) 95) == 0.
Proof.
  pose proof (onDrag_clamps (fst (step (selectedA 4) (OpStartDrag 0 100 0)))
                50 0 0 clipA eq_refl eq_refl eq_refl)
    as (_ & H1 & _ & _ & H2 & _).
  split; [exact H1|]. apply H2. discriminate.
Defined.

(** ** Trim *)

Lemma Math_max_floor (w : Q) : w <= 30 -> Math_max 30 w = 30.
Proof.
  intros H. unfold Math_max, Qmax, GenericMinMax.gmax.
  destruct (30 ?= w) eqn:E; try reflexivity.
  apply Qlt_alt in E. exfalso. apply (Qlt_irrefl w).
  eapply Qle_lt_trans; eassumption.
Qed.

Section TrimAtDensity.

(** The value of [this.pixelsPerSecond] when the pointer moves; it is
    positive for every zoom level from -1 up. *)
Variable pps : Z.
Hypothesis pps_pos : (0 < pps)%Z.

Lemma pixelsToTime_le (x y : Q) :
  x <= y -> pixelsToTime x pps <= pixelsToTime y pps.
Proof.
  intros H. unfold pixelsToTime, Qdiv.
  apply Qmult_le_compat_r; [exact H|].
  apply Qlt_le_weak, Qinv_lt_0_compat. now apply inject_Z_pos.
Qed.

(** C2 (as the code has it).  At a positive [pixelsPerSecond]: a left trim
    asking for a width of 30 pixels or less is rejected and the clip stays
    as it is; a right trim asking for 30 pixels or less is clamped, the
    clip keeps its start and its duration becomes the floor
    [30 / pixelsPerSecond]; and whatever the pointer does, a trim either
    leaves the clip as it is or leaves it with a duration of at least the
    floor. *)
Theorem trim_floor (s : TrimSession) (clientX : Q) (c : Clip) :
  let w := requestedWidth s clientX in
  let c' := trimClip s pps clientX c in
  (t_side s = left -> w <= 30 -> c' = c)
  /\ (t_side s = right -> w <= 30 ->
      c' = set_duration c (minDurationSeconds pps))
  /\ (c' = c \/ minDurationSeconds pps <= duration c').
Proof.
  intros w c'. subst w c'. unfold requestedWidth, trimClip.
  destruct (t_side s).
  - split; [|split; [discriminate|]].
    + intros _ H. apply Qgtb_false in H. rewrite H. reflexivity.
    + destruct (Qgtb _ 30) eqn:E; [right|now left].
      apply Qgtb_true in E. simpl. unfold minDurationSeconds.
      apply pixelsToTime_le. now apply Qlt_le_weak.
  - split; [discriminate|]. split.
    + intros _ H. rewrite (Math_max_floor _ H). reflexivity.
    + right. simpl. unfold minDurationSeconds.
      apply pixelsToTime_le. apply Q.le_max_l.
Qed.

End TrimAtDensity.

Lemma trim_floor_witness :
  trimClip (mkTrim 0 right 1000 950 0) 95 60 clipA =
    set_duration clipA (minDurationSeconds 95)
  /\ trimClip (mkTrim 0 left 1000 950 0) 95 1930 clipA = clipA.
Proof.
  split.
  - apply (trim_floor 95 eq_refl (mkTrim 0 right 1000 950 0) 60 clipA);
      [reflexivity | discriminate].
  - apply (trim_floor 95 eq_refl (mkTrim 0 left 1000 950 0) 1930 clipA);
      [reflexivity | discriminate].
Defined.

(** C2 (as stated) fails on the right handle: with clip A (10 seconds,
    950 pixels) and the pointer moved 940 pixels to the left, the width
    asked for is 10 pixels, below the floor, and the clip is not left as it
    was: its duration becomes 30/95 seconds. *)
Lemma trim_right_not_rejected :
  ~ (forall (s : TrimSession) (pps : Z) (clientX : Q) (c : Clip),
       (0 < pps)%Z ->
       pixelsToTime (requestedWidth s clientX) pps < minDurationSeconds pps ->
       startTime (trimClip s pps clientX c) == startTime c
       /\ duration (trimClip s pps clientX c) == duration c).
Proof.
  intros H.
  destruct (H (trimSession (selectedA 4) 0 clipA right 1000) 95%Z 60 clipA)
    as [_ Hd]; [reflexivity | reflexivity |].
  discriminate Hd.
Qed.

(** The same run on the state: after the pointer move the clip's duration
    is 6/19 seconds, not 10. *)
Lemma trim_right_not_rejected_run :
  exists c, heap (fst (step trimmingRightA (OpMouseMove 60 0))) !! 0%nat
            = Some c
            /\ startTime c == 0 /\ duration c == 6 # 19.
Proof. eexists. split; [reflexivity|]. split; reflexivity. Qed.

(** A right trim never touches [startTime]. *)
Lemma trimClip_right_start (s : TrimSession) (pps : Z) (clientX : Q)
    (c : Clip) :
  t_side s = right -> startTime (trimClip s pps clientX c) = startTime c.
Proof. intros H. unfold trimClip. rewrite H. reflexivity. Qed.

(** A left trim keeps the clip's end where it was as long as the new left
    edge is not clamped at 0 and the zoom has not changed since the
    session began. *)
Lemma trimClip_left_end (st : State) (r : nat) (x0 clientX : Q) (c : Clip) :
  (0 < pixelsPerSecond st)%Z ->
  let s := trimSession st r c left x0 in
  0 <= t_startLeft s + (clientX - x0) ->
  endTime (trimClip s (pixelsPerSecond st) clientX c) == endTime c.
Proof.
  intros Hp s Hpos. subst s. unfold trimClip, trimSession in *.
  cbn [t_side t_startX t_startWidth t_startLeft] in *.
  destruct (Qgtb _ 30); [|reflexivity].
  unfold endTime. cbn [startTime duration set_duration set_startTime].
  assert (E : Math_max 0
                (timeToPixels (startTime c) (pixelsPerSecond st)
                 + (clientX - x0))
              == timeToPixels (startTime c) (pixelsPerSecond st)
                 + (clientX - x0)).
  { apply Q.max_r. exact Hpos. }
  unfold pixelsToTime. rewrite E. unfold timeToPixels.
  assert (Hnz : ~ inject_Z (pixelsPerSecond st) == 0).
  { apply inject_Z_nonzero. lia. }
  field. exact Hnz.
Qed.

(** C6 fails when a left trim is dragged past the origin: the text clip
    spans [1, 6) (left edge at 95 pixels, 475 pixels wide); moving the
    pointer 190 pixels to the left clamps the new left edge to 0 but
    widens the clip by the full 190 pixels, so the clip becomes [0, 7) and
    its end has moved from 6 to 7. *)
Theorem left_trim_past_origin_moves_end :
  exists c c',
    heap trimmingLeftText !! 0%nat = Some c
    /\ heap (fst (step trimmingLeftText (OpMouseMove 10 0))) !! 0%nat
       = Some c'
    /\ startTime c == 1 /\ endTime c == 6
    /\ startTime c' == 0 /\ endTime c' == 7.
Proof.
  eexists. eexists. split; [reflexivity|]. split; [reflexivity|].
  repeat split.
Qed.

(** ** Clip ids *)

Lemma omap_cons {A B} (f : A -> option B) (x : A) (l : list A) :
  omap f (x :: l) =
  match f x with Some y => y :: omap f l | None => omap f l end.
Proof. reflexivity. Qed.

(** Overwriting an object by one with the same id does not change the ids
    of the clip list. *)
Lemma ids_insert (h : list Clip) (refs : list nat) (r : nat) (c c' : Clip) :
  h !! r = Some c -> id c' = id c ->
  map id (omap (fun x => <[r := c']> h !! x) refs) =
  map id (omap (fun x => h !! x) refs).
Proof.
  intros Hr Hid. induction refs as [|x refs IH]; [reflexivity|].
  rewrite !omap_cons. destruct (decide (r = x)) as [<-|Hne].
  - rewrite list_lookup_insert_eq by (eapply lookup_lt_Some; exact Hr).
    rewrite Hr. simpl. rewrite Hid, IH. reflexivity.
  - rewrite list_lookup_insert_ne by exact Hne.
    destruct (h !! x); simpl; rewrite IH; reflexivity.
Qed.

Lemma ids_with_heap (st : State) (r : nat) (c c' : Clip) :
  heap st !! r = Some c -> id c' = id c ->
  ids (with_heap st (<[r := c']> (heap st))) = ids st
  /\ (wf st -> wf (with_heap st (<[r := c']> (heap st)))).
Proof.
  intros Hr Hid. split.
  - unfold ids, objects; simpl. now apply (ids_insert _ _ _ c).
  - apply wf_with_heap. apply length_insert.
Qed.

Lemma ids_push (st : State) (c : Clip) :
  wf st -> ids (push st c) = ids st ++ [id c].
Proof.
  intros Hwf. unfold ids. rewrite (objects_push st c Hwf), map_app.
  reflexivity.
Qed.

Lemma ids_filter (h : list Clip) (refs : list nat) (sid : Z) :
  let keep r :=
    match h !! r with
    | Some c => negb (Z.eqb (id c) sid)
    | None => true
    end in
  map id (omap (fun x => h !! x) (List.filter keep refs)) =
  List.filter (fun i => negb (Z.eqb i sid))
    (map id (omap (fun x => h !! x) refs)).
Proof.
  intros keep. induction refs as [|x refs IH]; [reflexivity|].
  rewrite omap_cons. simpl. unfold keep at 1.
  destruct (h !! x) as [c|] eqn:Hx.
  - simpl. destruct (negb (Z.eqb (id c) sid)).
    + rewrite omap_cons, Hx. simpl. now rewrite IH.
    + exact IH.
  - rewrite omap_cons, Hx. exact IH.
Qed.

Lemma trimClip_id (s : TrimSession) (pps : Z) (x : Q) (c : Clip) :
  id (trimClip s pps x c) = id c.
Proof.
  unfold trimClip. destruct (t_side s); [|reflexivity].
  destruct (Qgtb _ _); reflexivity.
Qed.

Lemma onDrag_ids (st : State) (x l : Q) :
  ids (onDrag st x l) = ids st /\ (wf st -> wf (onDrag st x l)).
Proof.
  unfold onDrag. destruct (negb _); [now split|].
  destruct (dragClip st) as [r|]; [|now split].
  destruct (heap st !! r) as [c|] eqn:Hr; [|now split].
  now apply (ids_with_heap st r c).
Qed.

Lemma onTrim_ids (st : State) (s : TrimSession) (x : Q) :
  ids (onTrim st s x) = ids st /\ (wf st -> wf (onTrim st s x)).
Proof.
  unfold onTrim. destruct (heap st !! t_clip s) as [c|] eqn:Hr; [|now split].
  apply (ids_with_heap st _ c); [exact Hr | apply trimClip_id].
Qed.

(** What one event does to the ids of the clip list: nothing, or it
    appends the stamp of a creation event, or it removes the selected id. *)
Lemma step_ids (st : State) (op : Op) :
  wf st ->
  wf (fst (step st op))
  /\ (ids (fst (step st op)) = ids st
      \/ (exists n, stamp op = Some n
                    /\ ids (fst (step st op)) = ids st ++ [n])
      \/ exists sid, ids (fst (step st op)) =
                     List.filter (fun i => negb (Z.eqb i sid)) (ids st)).
Proof.
  intros Hwf. destruct op; simpl.
  - split; [exact Hwf | now left].
  - split; [now apply wf_push|]. right; left. eexists. split; [reflexivity|].
    now rewrite ids_push.
  - split; [now apply wf_push|]. right; left. eexists. split; [reflexivity|].
    now rewrite ids_push.
  - assert (Hdrop : data <> None ->
              wf (fst (drop st tr data clientX rectLeft now))
              /\ exists n, stamp (OpDrop tr data clientX rectLeft now)
                           = Some n
                           /\ ids (fst (drop st tr data clientX rectLeft now))
                              = ids st ++ [n]).
    { destruct data as [d|]; [intros _|congruence]. simpl.
      split; [now apply wf_push|]. eexists.
      split; [reflexivity|]. now rewrite ids_push. }
    destruct data as [d|];
      [|destruct tr; simpl; split; try exact Hwf; now left].
    destruct (Hdrop ltac:(discriminate)) as [Hw Hn].
    destruct tr; [| |split; [exact Hwf | now left]];
      (split; [exact Hw | right; left; exact Hn]).
  - destruct (clips st !! i) as [r|]; [|split; [exact Hwf | now left]].
    destruct (heap st !! r); split; try exact Hwf; now left.
  - split; [exact Hwf | now left].
  - unfold splitClip.
    destruct (truthy (selectedClip st)); [|split; [exact Hwf | now left]].
    destruct (findIndex _ _ _) as [i|]; [|split; [exact Hwf | now left]].
    destruct (clips st !! i) as [r|]; [|split; [exact Hwf | now left]].
    destruct (heap st !! r) as [c|] eqn:Hr; [|split; [exact Hwf | now left]].
    destruct (_ || _); [split; [exact Hwf | now left]|]. simpl.
    destruct (ids_with_heap st r c
                (set_duration c (currentTime st - startTime c)) Hr eq_refl)
      as [Hids Hwf'].
    split; [apply wf_push; now apply Hwf'|]. right; left. eexists.
    split; [reflexivity|]. rewrite ids_push by now apply Hwf'.
    now rewrite Hids.
  - unfold deleteSelectedClip.
    destruct (truthy (selectedClip st)) as [sid|];
      [|split; [exact Hwf | now left]].
    simpl. split.
    + unfold wf in *; simpl. rewrite Forall_forall in *.
      intros r Hin. apply Hwf. apply list_elem_of_In.
      apply list_elem_of_In in Hin. apply filter_In in Hin. tauto.
    + right; right. exists sid. unfold ids, objects; simpl.
      apply ids_filter.
  - destruct (clips st !! i); split; try exact Hwf; now left.
  - assert (H : wf (mouseMove st clientX trackLeft)
                /\ ids (mouseMove st clientX trackLeft) = ids st).
    { apply (mouseMove_preserves (fun st' => wf st' /\ ids st' = ids st));
        [intros st' [Hw Hi] | intros st' s [Hw Hi] | now split].
      - destruct (onDrag_ids st' clientX trackLeft) as [Hd Hwd].
        split; [now apply Hwd | now rewrite Hd].
      - destruct (onTrim_ids st' s clientX) as [Ht Hwt].
        split; [now apply Hwt | now rewrite Ht]. }
    destruct H as [Hw Hi]. split; [exact Hw | now left].
  - split; [exact Hwf | now left].
  - destruct (clips st !! i) as [r|]; [|split; [exact Hwf | now left]].
    simpl. unfold startTrim.
    destruct (heap st !! r); split; try exact Hwf; now left.
  - split; [exact Hwf | now left].
  - split; [exact Hwf | now left].
  - split; [exact Hwf | now left].
  - split; [now apply wf_push|]. right; left. eexists. split; [reflexivity|].
    now rewrite ids_push.
Qed.

(** Ids stay pairwise distinct along a run whose creation events carry
    stamps that are not in the clip list when they happen. *)
Lemma run_ids_unique (ops : list Op) (st : State) :
  wf st -> NoDup (ids st) -> fresh_run st ops ->
  wf (fst (run st ops)) /\ NoDup (ids (fst (run st ops))).
Proof.
  revert st. induction ops as [|op ops IH]; intros st Hwf Hnd Hfresh.
  - now split.
  - rewrite run_cons. destruct Hfresh as [Hop Hrest].
    destruct (step_ids st op Hwf) as [Hwf' Hids].
    apply IH; [exact Hwf' | | exact Hrest].
    destruct Hids as [-> | [(n & Hn & ->) | (sid & ->)]].
    + exact Hnd.
    + apply NoDup_app. split; [exact Hnd|]. split.
      * intros x Hx Hx'. apply list_elem_of_In in Hx.
        apply list_elem_of_singleton in Hx'. subst x.
        now apply (Hop n Hn).
      * apply NoDup_singleton.
    + apply NoDup_ListNoDup. apply List.NoDup_filter.
      now apply NoDup_ListNoDup.
Qed.

(** C8 (as the code has it).  A new clip's id is the clock value of its
    creation ([Date.now()] in [addClip], the drop handler, [splitClip]
    and [addBackgroundMusic], or the overlay's id for a text clip) and is
    never compared with the ids already in the list.  In every state
    reached by a run in which each creation event carries a stamp that
    differs from the ids of the clips in the list at that moment, no two
    clips of the list share an id. *)
Theorem ids_unique (ops : list Op) :
  fresh_run initial ops ->
  NoDup (ids (fst (run initial ops))).
Proof.
  intros H. apply run_ids_unique; [constructor | constructor | exact H].
Qed.

Lemma ids_unique_witness :
  NoDup (ids (fst (run initial
                     [OpAddClip itemA 1000; OpSelectClip 0; OpUpdateTime 4;
                      OpSplitClip 2000;
                      OpAddTextClip (mkOverlay 3000 "Title" 4 5);
                      OpAddBackgroundMusic "tune.mp3" 30 4000]))).
Proof.
  apply ids_unique. simpl.
  repeat split; intros n [= <-]; simpl; intuition discriminate.
Defined.

(** C8 (as stated) fails: two clips created at the same clock value share
    their id. *)
Lemma ids_collide :
  ~ (forall st : State, reachable st -> NoDup (ids st)).
Proof.
  intros H.
  specialize (H (fst (run initial
                        [OpAddClip itemA 1000;
                         OpDrop audio (Some itemA) 300 0 1000]))).
  assert (Hr : reachable
                 (fst (run initial
                         [OpAddClip itemA 1000;
                          OpDrop audio (Some itemA) 300 0 1000]))).
  { eexists. reflexivity. }
  apply H in Hr. simpl in Hr.
  apply NoDup_cons in Hr. destruct Hr as [Hr _]. apply Hr. now left.
Qed.

(** Every state the editor reaches is well formed, so the placement and
    id lemmas above apply to it. *)
Lemma reachable_wf (st : State) : reachable st -> wf st.
Proof.
  intros [ops <-]. generalize initial (Forall_nil_2 _ : wf initial).
  induction ops as [|op ops IH]; intros st Hwf; [exact Hwf|].
  rewrite run_cons. apply IH. now apply step_ids.
Qed.

(** ** Time labels *)

Lemma Qfloor_div_60 (s : Q) : Qfloor (s / 60) = (Qfloor s / 60)%Z.
Proof.
  destruct s as [a b]. unfold Qdiv, Qmult, Qinv, Qfloor. simpl.
  rewrite Z.mul_1_r, Pos2Z.inj_mul. symmetry. apply Z.div_div; lia.
Qed.

Lemma Qfloor_sub_Z (x : Q) (k : Z) :
  Qfloor (x - inject_Z k) = (Qfloor x - k)%Z.
Proof.
  destruct x as [a b]. unfold Qminus, Qplus, Qopp, inject_Z, Qfloor. simpl.
  rewrite Z.mul_1_r, Pos.mul_1_r.
  replace (a + - k * Z.pos b)%Z with (a + (- k) * Z.pos b)%Z by lia.
  rewrite Z.div_add by lia. lia.
Qed.

Lemma Qtrunc_nonneg (x : Q) : 0 <= x -> Qtrunc x = Qfloor x.
Proof.
  destruct x as [a b]. unfold Qle, Qtrunc, Qfloor. simpl. intros H.
  apply Z.quot_div_nonneg; lia.
Qed.

(** For a time that is not negative the remainder [seconds % 60] has the
    whole part [floor(seconds) mod 60]. *)
Lemma floor_jsRem_60 (s : Q) :
  0 <= s -> Qfloor (jsRem s 60) = (Qfloor s mod 60)%Z.
Proof.
  intros Hs. unfold jsRem.
  assert (H0 : 0 <= s / 60).
  { unfold Qdiv. apply Qmult_le_0_compat; [exact Hs | discriminate]. }
  rewrite (Qtrunc_nonneg _ H0), Qfloor_div_60.
  assert (E : s - 60 * inject_Z (Qfloor s / 60)
              == s - inject_Z (60 * (Qfloor s / 60))).
  { rewrite inject_Z_mult. reflexivity. }
  rewrite (Qfloor_comp _ _ E), Qfloor_sub_Z.
  rewrite Z.mod_eq by lia. reflexivity.
Qed.

Lemma two_digits (k : Z) :
  (0 <= k < 100)%Z ->
  String.length (padStart 2 "0" (Number_toString k)) = 2%nat.
Proof.
  intros Hk.
  assert (Hall : forallb
            (fun k => Nat.eqb
               (String.length (padStart 2 "0" (Number_toString k))) 2)
            (seqZ 0 100) = true) by (vm_compute; reflexivity).
  rewrite forallb_forall in Hall.
  apply Nat.eqb_eq, Hall, list_elem_of_In, elem_of_seqZ. lia.
Qed.

(** X1.  For a time from 0 up to 100 hours, [formatTime] shows the whole
    seconds [n = floor(seconds)] as [n div 60] minutes (not wrapped at the
    hour), a colon, and [n mod 60] in exactly two characters. *)
Theorem formatTime_minutes_seconds (seconds : Q) :
  0 <= seconds -> seconds < 360000 ->
  let n := Qfloor seconds in
  let field := padStart 2 "0" (Number_toString (n mod 60)) in
  formatTime seconds =
    String.append (Number_toString (n / 60)) (String.append ":" field)
  /\ String.length field = 2%nat
  /\ (0 <= n / 60)%Z /\ (0 <= n mod 60 < 60)%Z
  /\ formatTime seconds = formatTime (inject_Z n).
Proof.
  intros Hs _ n field.
  assert (Hn : (0 <= n)%Z).
  { subst n. rewrite <- (Qfloor_Z 0). now apply Qfloor_resp_le. }
  assert (Hf : forall s, 0 <= s ->
             formatTime s =
             String.append (Number_toString (Qfloor s / 60))
               (String.append ":"
                  (padStart 2 "0" (Number_toString (Qfloor s mod 60))))).
  { intros s H. unfold formatTime, Math_floor.
    rewrite Qfloor_div_60, (floor_jsRem_60 s H). reflexivity. }
  split; [apply Hf; exact Hs|].
  assert (Hm : (0 <= n mod 60 < 60)%Z) by (apply Z.mod_pos_bound; lia).
  split; [apply two_digits; lia|].
  split; [apply Z.div_pos; lia|].
  split; [exact Hm|].
  rewrite (Hf seconds Hs), (Hf (inject_Z n)).
  - rewrite Qfloor_Z. reflexivity.
  - change 0 with (inject_Z 0). rewrite <- Zle_Qle. exact Hn.
Qed.

Lemma formatTime_minutes_seconds_witness :
  formatTime (151 # 2) = "1:15"%string.
Proof.
  destruct (formatTime_minutes_seconds (151 # 2)) as (H & _).
  - discriminate.
  - reflexivity.
  - rewrite H. reflexivity.
Defined.

(** ** Ruler *)

Lemma loop_enters (time : Z) (d : Q) :
  (time <= Qfloor d)%Z -> Qleb (inject_Z time) d = true.
Proof.
  intros H. apply Qle_bool_iff.
  eapply Qle_trans; [|apply Qfloor_le]. now rewrite <- Zle_Qle.
Qed.

Lemma loop_exits (time : Z) (d : Q) :
  (Qfloor d < time)%Z -> Qleb (inject_Z time) d = false.
Proof.
  intros H. apply not_true_iff_false. intros E. apply Qle_bool_iff in E.
  apply (Qlt_irrefl d). eapply Qlt_le_trans; [apply Qlt_floor|].
  eapply Qle_trans; [|exact E]. rewrite <- Zle_Qle. lia.
Qed.

Lemma tickInterval_cases (z : Z) :
  tickInterval z = 10%Z \/ tickInterval z = 5%Z \/ tickInterval z = 1%Z.
Proof.
  unfold tickInterval. destruct (z <? 3)%Z; [now left|].
  destruct (z <? 6)%Z; [right; now left | right; now right].
Qed.

Section Ruler.

Variables (pps interval : Z) (duration : Q).
Hypothesis interval_pos : (1 <= interval)%Z.

(** The labelled mark of round [j] is made, given fuel for the rounds up
    to the exit. *)
Lemma rulerLoop_major (j : nat) :
  forall (fuel : nat) (time : Z),
    (Qfloor duration - time < Z.of_nat fuel)%Z ->
    (time + Z.of_nat j * interval <= Qfloor duration)%Z ->
    In (MajorMark (markLeft pps (time + Z.of_nat j * interval))
          (formatTime (inject_Z (time + Z.of_nat j * interval))))
       (rulerLoop fuel pps interval duration time).
Proof.
  induction j as [|j IH]; intros fuel time Hfuel Hle.
  - destruct fuel as [|fuel]; [lia|]. simpl.
    rewrite loop_enters by lia. left. now rewrite Z.add_0_r.
  - destruct fuel as [|fuel]; [lia|]. simpl.
    rewrite loop_enters by lia. right. apply in_or_app. right.
    replace (time + Z.of_nat (S j) * interval)%Z
      with (time + interval + Z.of_nat j * interval)%Z by lia.
    apply IH; lia.
Qed.

Lemma rulerLoop_minor (j : nat) (r : Z) :
  (5 <= interval)%Z -> (1 <= r < interval)%Z ->
  forall (fuel : nat) (time : Z),
    (Qfloor duration - time < Z.of_nat fuel)%Z ->
    (time + Z.of_nat j * interval <= Qfloor duration)%Z ->
    In (MinorMark (markLeft pps (time + Z.of_nat j * interval + r)))
       (rulerLoop fuel pps interval duration time).
Proof.
  intros H5 Hr. induction j as [|j IH]; intros fuel time Hfuel Hle.
  - destruct fuel as [|fuel]; [lia|]. simpl.
    rewrite loop_enters by lia. right. apply in_or_app. left.
    assert (E : (5 <=? interval)%Z = true) by (apply Z.leb_le; lia).
    rewrite E. unfold minorMarks. rewrite Z.add_0_r.
    apply in_map_iff. exists r. split; [reflexivity|].
    apply list_elem_of_In, elem_of_seqZ. lia.
  - destruct fuel as [|fuel]; [lia|]. simpl.
    rewrite loop_enters by lia. right. apply in_or_app. right.
    replace (time + Z.of_nat (S j) * interval + r)%Z
      with (time + interval + Z.of_nat j * interval + r)%Z by lia.
    apply IH; lia.
Qed.

(** Every labelled mark the loop makes belongs to a round that started
    at or before the duration. *)
Lemma rulerLoop_major_inv (l : Q) (label : string) :
  forall (fuel : nat) (time : Z),
    In (MajorMark l label) (rulerLoop fuel pps interval duration time) ->
    exists j : nat,
      l = markLeft pps (time + Z.of_nat j * interval)
      /\ (time + Z.of_nat j * interval <= Qfloor duration)%Z.
Proof.
  induction fuel as [|fuel IH]; intros time Hin; [destruct Hin|].
  simpl in Hin. destruct (Qleb (inject_Z time) duration) eqn:E;
    [|destruct Hin].
  assert (Hle : (time <= Qfloor duration)%Z).
  { destruct (Z_le_gt_dec time (Qfloor duration)) as [H|H]; [exact H|].
    rewrite loop_exits in E by lia. discriminate. }
  destruct Hin as [Hin|Hin].
  - injection Hin as <- _. exists 0%nat. rewrite Z.add_0_r. now split.
  - apply in_app_or in Hin. destruct Hin as [Hin|Hin].
    + exfalso. destruct (5 <=? interval)%Z; [|destruct Hin].
      unfold minorMarks in Hin. apply in_map_iff in Hin.
      destruct Hin as (m & Hm & _). discriminate Hm.
    + destruct (IH _ Hin) as (j & -> & Hj). exists (S j).
      split; [f_equal; lia | lia].
Qed.

Lemma minorMarks_no_major (time : Z) :
  List.filter isMajor
    (if (5 <=? interval)%Z then minorMarks pps interval time else []) = [].
Proof.
  destruct (5 <=? interval)%Z; [|reflexivity].
  unfold minorMarks. induction (seqZ 1 (interval - 1)); [reflexivity|].
  simpl. assumption.
Qed.

(** The number of labelled marks does not depend on the fuel once it
    covers the rounds up to the exit. *)
Lemma rulerLoop_count :
  forall (fuel : nat) (time : Z),
    (Qfloor duration - time < Z.of_nat fuel)%Z ->
    (time <= Qfloor duration)%Z ->
    length (List.filter isMajor (rulerLoop fuel pps interval duration time))
    = Z.to_nat ((Qfloor duration - time) / interval + 1).
Proof.
  induction fuel as [|fuel IH]; intros time Hfuel Hle; [lia|].
  simpl. rewrite loop_enters by lia. simpl.
  rewrite List.filter_app, minorMarks_no_major. simpl.
  destruct (Z_le_gt_dec (time + interval) (Qfloor duration)) as [H|H].
  - rewrite IH by lia.
    replace (Qfloor duration - time)%Z
      with ((Qfloor duration - (time + interval)) + 1 * interval)%Z by lia.
    rewrite Z.div_add by lia.
    assert (0 <= (Qfloor duration - (time + interval)) / interval)%Z
      by (apply Z.div_pos; lia).
    lia.
  - rewrite Z.div_small by lia.
    destruct fuel as [|fuel]; [reflexivity|]. simpl.
    rewrite loop_exits by lia. reflexivity.
Qed.

End Ruler.

Lemma durationOrDefault_nonneg (sd : Q) :
  0 <= sd -> (0 <= Qfloor (durationOrDefault sd))%Z.
Proof.
  intros H. rewrite <- (Qfloor_Z 0). apply Qfloor_resp_le.
  unfold durationOrDefault. destruct (Qeq_bool sd 0); [discriminate|exact H].
Qed.

Lemma markLeft_diff (pps t1 t2 : Z) :
  markLeft pps t1 - markLeft pps t2 == inject_Z ((t1 - t2) * pps).
Proof.
  unfold markLeft. rewrite inject_Z_mult. unfold Zminus.
  rewrite inject_Z_plus, inject_Z_opp. ring.
Qed.

(** X2.  With a state duration that is not negative, the ruler has a mark
    at the offset of every whole second from 0 up to the end of the last
    labelled interval, which lies beyond the duration: a labelled mark at
    every multiple of the interval and, between them, minor marks.  So
    every whole second of the duration is marked, and the minor marks
    after the last labelled one are made even where they pass the
    duration. *)
Theorem ruler_marks_every_second (st : State) (sd : Q) (k : Z) :
  0 <= sd ->
  let d := durationOrDefault sd in
  let interval := tickInterval (zoom st) in
  let marks := snd (renderRuler st sd) in
  let last := (interval * (Qfloor d / interval))%Z in
  (0 <= k < last + interval)%Z ->
  (last <= Qfloor d < last + interval)%Z
  /\ ((k mod interval = 0)%Z ->
      In (MajorMark (markLeft (pixelsPerSecond st) k)
            (formatTime (inject_Z k))) marks)
  /\ ((k mod interval <> 0)%Z ->
      In (MinorMark (markLeft (pixelsPerSecond st) k)) marks).
Proof.
  intros Hsd d interval marks last Hk.
  pose proof (durationOrDefault_nonneg sd Hsd) as Hd. fold d in Hd.
  assert (HI : (1 <= interval)%Z).
  { subst interval. destruct (tickInterval_cases (zoom st)) as [->|[->| ->]];
      lia. }
  assert (Hlast : (last <= Qfloor d < last + interval)%Z).
  { subst last. pose proof (Z.mul_div_le (Qfloor d) interval).
    pose proof (Z.mul_succ_div_gt (Qfloor d) interval). lia. }
  assert (Hj : (0 <= k / interval)%Z /\ (interval * (k / interval) <= last)%Z).
  { split; [apply Z.div_pos; lia|]. subst last.
    apply Z.mul_le_mono_nonneg_l; [lia|].
    apply Z.lt_succ_r. apply Z.div_lt_upper_bound; lia. }
  destruct Hj as [Hj0 Hjl].
  pose proof (Z.div_mod k interval ltac:(lia)) as Hdm.
  split; [exact Hlast|]. subst marks. unfold renderRuler. simpl.
  fold d interval. split.
  - intros Hm.
    replace k with (0 + Z.of_nat (Z.to_nat (k / interval)) * interval)%Z
      by lia.
    apply rulerLoop_major; lia.
  - intros Hm.
    assert (H5 : (5 <= interval)%Z).
    { subst interval.
      destruct (tickInterval_cases (zoom st)) as [E|[E|E]];
        rewrite E in *; try lia.
      rewrite Z.mod_1_r in Hm. contradiction. }
    pose proof (Z.mod_pos_bound k interval ltac:(lia)) as Hb.
    replace k with (0 + Z.of_nat (Z.to_nat (k / interval)) * interval
                    + k mod interval)%Z at 1 by lia.
    apply rulerLoop_minor; lia.
Qed.

Lemma ruler_marks_every_second_witness :
  In (MinorMark (markLeft 95 64))
     (snd (renderRuler (initRuler initial) 0))
  /\ In (MajorMark (markLeft 95 60) "1:00")
        (snd (renderRuler (initRuler initial) 0)).
Proof.
  split.
  - apply (ruler_marks_every_second (initRuler initial) 0 64);
      [discriminate | vm_compute; split; [discriminate | reflexivity]
       | discriminate].
  - apply (ruler_marks_every_second (initRuler initial) 0 60);
      [discriminate | vm_compute; split; [discriminate | reflexivity]
       | reflexivity].
Defined.

(** X3.  With a state duration that is not negative and a pixel density
    that is not negative, the ruler has [floor(duration) div interval + 1]
    labelled marks (the loop leaves by its test, not for lack of rounds),
    and every labelled mark lies between the origin offset 80 and the
    ruler's width. *)
Theorem ruler_labels (st : State) (sd : Q) :
  0 <= sd -> (0 <= pixelsPerSecond st)%Z ->
  let d := durationOrDefault sd in
  let interval := tickInterval (zoom st) in
  let marks := snd (renderRuler st sd) in
  length (List.filter isMajor marks) = Z.to_nat (Qfloor d / interval + 1)
  /\ forall l label, In (MajorMark l label) marks ->
       80 <= l <= fst (renderRuler st sd).
Proof.
  intros Hsd Hp d interval marks.
  pose proof (durationOrDefault_nonneg sd Hsd) as Hd. fold d in Hd.
  assert (HI : (1 <= interval)%Z).
  { subst interval. destruct (tickInterval_cases (zoom st)) as [->|[->| ->]];
      lia. }
  subst marks. unfold renderRuler. simpl. fold d interval. split.
  - rewrite rulerLoop_count by lia. now rewrite Z.sub_0_r.
  - intros l label Hin.
    apply rulerLoop_major_inv in Hin.
    destruct Hin as (j & -> & Hj). simpl in Hj.
    set (t := (0 + Z.of_nat j * interval)%Z) in *.
    assert (Ht : (0 <= t)%Z) by (subst t; nia).
    assert (Hp' : 0 <= inject_Z (pixelsPerSecond st)).
    { change 0 with (inject_Z 0). now rewrite <- Zle_Qle. }
    unfold markLeft. split.
    + rewrite <- (Qplus_0_r 80) at 1. apply Qplus_le_r.
      apply Qmult_le_0_compat; [|exact Hp'].
      change 0 with (inject_Z 0). now rewrite <- Zle_Qle.
    + rewrite (Qplus_comm (d * _) 80). apply Qplus_le_r.
      apply Qmult_le_compat_r; [|exact Hp'].
      eapply Qle_trans; [|apply Qfloor_le]. now rewrite <- Zle_Qle.
Qed.

Lemma ruler_labels_witness :
  length (List.filter isMajor (snd (renderRuler (initRuler initial) 0)))
  = 13%nat.
Proof.
  destruct (ruler_labels (initRuler initial) 0) as [H _];
    [discriminate | discriminate | exact H].
Defined.

(** X4.  At every zoom level from 1 to 10, with [pixelsPerSecond] set by
    [updateZoom], two labelled marks of the ruler are either at the same
    offset or at least 110 pixels apart. *)
Theorem ruler_label_spacing (st : State) (sd l1 l2 : Q)
    (label1 label2 : string) :
  (1 <= zoom st <= 10)%Z ->
  pixelsPerSecond st = (20 + zoom st * 15)%Z ->
  In (MajorMark l1 label1) (snd (renderRuler st sd)) ->
  In (MajorMark l2 label2) (snd (renderRuler st sd)) ->
  l1 == l2 \/ 110 <= l1 - l2 \/ 110 <= l2 - l1.
Proof.
  intros Hz Hpps H1 H2. unfold renderRuler in H1, H2. simpl in H1, H2.
  set (interval := tickInterval (zoom st)) in *.
  assert (HI : (1 <= interval)%Z /\ (110 <= interval * pixelsPerSecond st)%Z).
  { subst interval. rewrite Hpps. unfold tickInterval.
    destruct (zoom st <? 3)%Z eqn:E3; [lia|].
    destruct (zoom st <? 6)%Z eqn:E6; [apply Z.ltb_ge in E3; lia|].
    apply Z.ltb_ge in E6. lia. }
  destruct HI as [HI Hgap].
  apply rulerLoop_major_inv in H1, H2.
  destruct H1 as (j1 & -> & _), H2 as (j2 & -> & _).
  destruct (Z.lt_trichotomy (Z.of_nat j1) (Z.of_nat j2)) as [H|[H|H]].
  - right; right. rewrite markLeft_diff.
    change 110 with (inject_Z 110). rewrite <- Zle_Qle. nia.
  - left. apply Nat2Z.inj in H. now subst j2.
  - right; left. rewrite markLeft_diff.
    change 110 with (inject_Z 110). rewrite <- Zle_Qle. nia.
Qed.

Lemma ruler_label_spacing_witness :
  markLeft 95 5 == markLeft 95 0
  \/ 110 <= markLeft 95 5 - markLeft 95 0
  \/ 110 <= markLeft 95 0 - markLeft 95 5.
Proof.
  apply (ruler_label_spacing (initRuler initial) 0 _ _ "0:05" "0:00").
  - simpl; lia.
  - reflexivity.
  - vm_compute. tauto.
  - vm_compute. tauto.
Defined.

(** ** Delete and selection *)

Lemma objects_filter (h : list Clip) (refs : list nat) (sid : Z) :
  let keep r :=
    match h !! r with
    | Some c => negb (Z.eqb (id c) sid)
    | None => true
    end in
  omap (fun x => h !! x) (List.filter keep refs) =
  List.filter (fun c => negb (Z.eqb (id c) sid))
    (omap (fun x => h !! x) refs).
Proof.
  intros keep. induction refs as [|x refs IH]; [reflexivity|].
  rewrite omap_cons. simpl. unfold keep at 1.
  destruct (h !! x) as [c|] eqn:Hx.
  - simpl. destruct (negb (Z.eqb (id c) sid)).
    + rewrite omap_cons, Hx. now rewrite IH.
    + exact IH.
  - rewrite omap_cons, Hx. exact IH.
Qed.

Lemma filter_removes_one (l : list Clip) (sid : Z) :
  NoDup (map id l) -> In sid (map id l) ->
  (length (List.filter (fun c => negb (Z.eqb (id c) sid)) l) + 1
   = length l)%nat.
Proof.
  induction l as [|c l IH]; simpl; intros Hnd Hin; [destruct Hin|].
  apply NoDup_cons in Hnd. destruct Hnd as [Hc Hnd].
  destruct (Z.eqb (id c) sid) eqn:E; simpl.
  - apply Z.eqb_eq in E. subst sid.
    assert (Hall : List.filter (fun x => negb (Z.eqb (id x) (id c))) l = l).
    { clear IH Hnd Hin. induction l as [|y l IHl]; [reflexivity|].
      simpl. destruct (Z.eqb (id y) (id c)) eqn:Ey.
      - apply Z.eqb_eq in Ey. exfalso. apply Hc. rewrite <- Ey.
        simpl. now left.
      - simpl. f_equal. apply IHl. intros H. apply Hc. simpl. now right. }
    rewrite Hall. lia.
  - apply Z.eqb_neq in E. destruct Hin as [Hin|Hin]; [contradiction|].
    rewrite <- (IH Hnd Hin). lia.
Qed.

(** X5.  With a clip selected, [deleteSelectedClip] keeps exactly the
    clips whose id differs from the selected id, in their order, without
    touching any clip object; afterwards no clip carries that id and
    nothing is selected.  If ids are pairwise distinct and the id is in
    the list, exactly one clip goes. *)
Theorem deleteSelectedClip_removes (st : State) (selectedId : Z) :
  truthy (selectedClip st) = Some selectedId ->
  let st' := fst (deleteSelectedClip st) in
  objects st' =
    List.filter (fun c => negb (Z.eqb (id c) selectedId)) (objects st)
  /\ ~ In selectedId (ids st')
  /\ selectedClip st' = None
  /\ heap st' = heap st
  /\ snd (deleteSelectedClip st) = [mkToast "Clip deleted" success]
  /\ (NoDup (ids st) -> In selectedId (ids st) ->
      (length (objects st') + 1 = length (objects st))%nat).
Proof.
  intros Hsel st'. subst st'. unfold deleteSelectedClip. rewrite Hsel.
  simpl.
  assert (Hobj : objects
            (mkState (heap st)
               (List.filter
                  (fun r => match heap st !! r with
                            | Some c => negb (Z.eqb (id c) selectedId)
                            | None => true
                            end) (clips st))
               None (currentTime st) (zoom st) (pixelsPerSecond st)
               (isDragging st) (dragClip st) (dragOffset st) (listeners st))
          = List.filter (fun c => negb (Z.eqb (id c) selectedId))
              (objects st)).
  { unfold objects; simpl. apply objects_filter. }
  split; [exact Hobj|]. split.
  { unfold ids. rewrite Hobj. intros Hin. apply in_map_iff in Hin.
    destruct Hin as (c & Hc & Hin). apply filter_In in Hin.
    destruct Hin as [_ Hne]. apply negb_true_iff, Z.eqb_neq in Hne.
    contradiction. }
  split; [reflexivity|]. split; [reflexivity|]. split; [reflexivity|].
  intros Hnd Hin. rewrite Hobj. now apply filter_removes_one.
Qed.

Lemma deleteSelectedClip_removes_witness :
  objects (fst (deleteSelectedClip (selectedA 4))) = []
  /\ selectedClip (fst (deleteSelectedClip (selectedA 4))) = None.
Proof.
  destruct (deleteSelectedClip_removes (selectedA 4) 1000 eq_refl)
    as (H1 & _ & H2 & _).
  split; [rewrite H1; reflexivity | exact H2].
Defined.

(** X6.  With a selected id that no clip of the list carries,
    [deleteSelectedClip] leaves the clip list as it is, clears the
    selection, and still reports "Clip deleted" as a success. *)
Theorem deleteSelectedClip_stale (st : State) (selectedId : Z) :
  truthy (selectedClip st) = Some selectedId ->
  ~ In selectedId (ids st) ->
  let st' := fst (deleteSelectedClip st) in
  objects st' = objects st
  /\ heap st' = heap st
  /\ selectedClip st' = None
  /\ snd (deleteSelectedClip st) = [mkToast "Clip deleted" success].
Proof.
  intros Hsel Hnot st'. subst st'. unfold deleteSelectedClip.
  rewrite Hsel. simpl.
  split; [|split; [reflexivity | split; reflexivity]].
  unfold objects; simpl. rewrite objects_filter.
  unfold ids, objects in Hnot.
  induction (omap (fun r => heap st !! r) (clips st)) as [|c l IH];
    [reflexivity|].
  simpl in *. destruct (Z.eqb (id c) selectedId) eqn:E; simpl.
  - apply Z.eqb_eq in E. exfalso. apply Hnot. now left.
  - f_equal. apply IH. intros H. apply Hnot. now right.
Qed.

Lemma deleteSelectedClip_stale_witness :
  objects (fst (deleteSelectedClip staleSelection)) = [clipA]
  /\ snd (deleteSelectedClip staleSelection)
     = [mkToast "Clip deleted" success].
Proof.
  destruct (deleteSelectedClip_stale staleSelection 77 eq_refl)
    as (H1 & _ & _ & H2).
  - simpl. intros [H|[]]. discriminate H.
  - split; [rewrite H1; reflexivity | exact H2].
Defined.

(** X7.  After [deleteSelectedClip], however it went, nothing is
    selected: a second delete and a split are refused with a warning and
    change nothing, and the keyboard's delete does nothing at all, without
    a message. *)
Theorem after_delete_nothing_selected (st : State) (now : Z) :
  let st' := fst (deleteSelectedClip st) in
  truthy (selectedClip st') = None
  /\ deleteSelectedClip st' =
       (st', [mkToast "Select a clip to delete" warning])
  /\ splitClip st' now = (st', [mkToast "Select a clip to split" warning])
  /\ keyDelete st' = (st', []).
Proof.
  intros st'.
  assert (H : truthy (selectedClip st') = None).
  { subst st'. unfold deleteSelectedClip.
    destruct (truthy (selectedClip st)) eqn:E; [reflexivity | exact E]. }
  split; [exact H|].
  unfold deleteSelectedClip, splitClip, keyDelete. rewrite H.
  split; [reflexivity | split; reflexivity].
Qed.

Lemma findIndex_at (h : list Clip) (refs : list nat) :
  Forall (fun r => (r < length h)%nat) refs ->
  NoDup (map id (omap (fun x => h !! x) refs)) ->
  forall (i r : nat) (c : Clip),
    refs !! i = Some r -> h !! r = Some c ->
    findIndex h refs (id c) = Some i.
Proof.
  induction refs as [|r0 refs IH]; intros Hwf Hnd i r c Hi Hr;
    [discriminate|].
  apply Forall_cons in Hwf. destruct Hwf as [Hr0 Hwf].
  apply lookup_lt_is_Some_2 in Hr0. destruct Hr0 as [c0 Hc0].
  rewrite omap_cons, Hc0 in Hnd. simpl in Hnd.
  apply NoDup_cons in Hnd. destruct Hnd as [Hc Hnd].
  simpl. rewrite Hc0. destruct i as [|i]; simpl in Hi.
  - injection Hi as ->. rewrite Hr in Hc0. injection Hc0 as ->.
    now rewrite Z.eqb_refl.
  - assert (Hne : id c0 <> id c).
    { intros E. apply Hc. rewrite E. apply list_elem_of_In, in_map.
      apply list_elem_of_In, list_elem_of_omap. exists r.
      split; [|exact Hr]. eapply list_elem_of_lookup_2; exact Hi. }
    apply Z.eqb_neq in Hne. rewrite Hne.
    rewrite (IH Hwf Hnd i r c Hi Hr). reflexivity.
Qed.

(** X8.  When ids are pairwise distinct, a click on the element of the
    clip at position [i] selects that very clip: the selection holds its
    id and [findIndex], as [splitClip] uses it, finds position [i]. *)
Theorem click_selects_clip (st : State) (i r : nat) (c : Clip) :
  wf st -> NoDup (ids st) ->
  clips st !! i = Some r -> heap st !! r = Some c ->
  let st' := fst (step st (OpSelectClip i)) in
  selectedClip st' = Some (id c)
  /\ findIndex (heap st') (clips st') (id c) = Some i
  /\ heap st' = heap st /\ clips st' = clips st.
Proof.
  intros Hwf Hnd Hi Hr st'. subst st'. simpl. rewrite Hi, Hr. simpl.
  split; [reflexivity|]. split; [|split; reflexivity].
  now apply (findIndex_at _ _ Hwf Hnd i r c).
Qed.

Lemma click_selects_clip_witness :
  selectedClip (fst (step (selectedA 4) (OpSelectClip 0))) = Some 1000%Z.
Proof.
  apply (click_selects_clip (selectedA 4) 0 0 clipA).
  - repeat constructor.
  - simpl. apply NoDup_singleton.
  - reflexivity.
  - reflexivity.
Defined.

(** ** Pointer sessions *)

(** X9.  A drag follows the pointer's direction.  While a drag is on,
    [onDrag] gives the dragged clip the start [dragTime] computes and
    leaves its duration; at a positive density a pointer further right
    never gives an earlier start, and a pointer right of the place where
    the clip would start at 0 gives a positive start. *)
Theorem drag_follows_direction (st : State) (r : nat) (c : Clip)
    (x x' trackLeft : Q) :
  isDragging st = true -> dragClip st = Some r -> heap st !! r = Some c ->
  (0 < pixelsPerSecond st)%Z -> x <= x' ->
  heap (onDrag st x trackLeft) !! r
  = Some (set_startTime c (dragTime st x trackLeft))
  /\ heap (onDrag st x' trackLeft) !! r
     = Some (set_startTime c (dragTime st x' trackLeft))
  /\ dragTime st x trackLeft <= dragTime st x' trackLeft
  /\ (0 < x - trackLeft - dragOffset st -> 0 < dragTime st x trackLeft)
  /\ duration <$> heap (onDrag st x trackLeft) !! r = Some (duration c).
Proof.
  intros Hd Hc Hr Hp Hx.
  pose proof (lookup_lt_Some _ _ _ Hr) as Hlt.
  assert (Hw : forall y, heap (onDrag st y trackLeft) !! r
                         = Some (set_startTime c (dragTime st y trackLeft))).
  { intros y. unfold onDrag. rewrite Hd, Hc, Hr. simpl.
    now apply list_lookup_insert_eq. }
  split; [apply Hw|]. split; [apply Hw|]. split; [|split].
  - unfold dragTime, Math_max. apply Q.max_le_compat_l.
    apply pixelsToTime_le; [exact Hp|]. lra.
  - intros Hpos. unfold dragTime, Math_max.
    eapply Qlt_le_trans; [|apply Q.le_max_r].
    unfold pixelsToTime, Qdiv. apply Qmult_lt_0_compat; [exact Hpos|].
    apply Qinv_lt_0_compat. now apply inject_Z_pos.
  - rewrite Hw. reflexivity.
Qed.

Lemma drag_follows_direction_witness :
  dragTime (startDrag (selectedA 4) 0 300 20) 310 20
  <= dragTime (startDrag (selectedA 4) 0 300 20) 490 20.
Proof.
  apply (drag_follows_direction (startDrag (selectedA 4) 0 300 20) 0 clipA
           310 490 20).
  - reflexivity.
  - reflexivity.
  - reflexivity.
  - reflexivity.
  - discriminate.
Defined.

Lemma listeners_cleared (ls : list Listener) :
  List.filter isOnDrag (List.filter (fun l => negb (isOnDrag l)) ls) = [].
Proof.
  induction ls as [|[|s] ls IH]; simpl; [reflexivity | exact IH | exact IH].
Qed.

(** X10.  A [mouseup] ends every pointer session: no drag is on, no
    listener is left on the document, no clip object has changed, and a
    pointer move after it changes nothing. *)
Theorem mouseUp_ends_sessions (st : State) (clientX trackLeft : Q) :
  let st' := mouseUp st in
  isDragging st' = false /\ dragClip st' = None /\ listeners st' = []
  /\ heap st' = heap st /\ clips st' = clips st
  /\ mouseMove st' clientX trackLeft = st'.
Proof.
  intros st'. subst st'. unfold mouseUp, endTrim, endDrag; simpl.
  rewrite listeners_cleared. repeat split.
Qed.

(** X11.  A drag session whose clip is no longer in the clip list (it was
    deleted while the button was held) cannot alter the timeline: a
    pointer move still writes the new start to the detached clip object,
    but changes neither the list nor any clip the list refers to. *)
Theorem drag_of_deleted_clip (st : State) (r : nat) (c : Clip)
    (clientX trackLeft : Q) :
  isDragging st = true -> dragClip st = Some r -> heap st !! r = Some c ->
  ~ In r (clips st) ->
  let st' := onDrag st clientX trackLeft in
  heap st' !! r = Some (set_startTime c (dragTime st clientX trackLeft))
  /\ clips st' = clips st /\ objects st' = objects st.
Proof.
  intros Hg Hd Hr Hnot st'. subst st'. unfold onDrag.
  rewrite Hg, Hd, Hr. simpl. split; [|split; [reflexivity|]].
  - apply list_lookup_insert_eq. eapply lookup_lt_Some; exact Hr.
  - unfold objects; simpl.
    apply objects_ext. apply Forall_forall. intros x Hx.
    apply list_lookup_insert_ne. intros ->. apply Hnot.
    now apply list_elem_of_In.
Qed.

Lemma drag_of_deleted_clip_witness :
  heap
    (onDrag
       (fst (run (selectedA 4) [OpStartDrag 0 300 20; OpDeleteSelectedClip]))
       490 20) !! 0%nat
  = Some
      (set_startTime clipA
         (dragTime
            (fst (run (selectedA 4)
                    [OpStartDrag 0 300 20; OpDeleteSelectedClip])) 490 20))
  /\ objects
       (onDrag
          (fst (run (selectedA 4)
                  [OpStartDrag 0 300 20; OpDeleteSelectedClip])) 490 20)
     = objects
         (fst (run (selectedA 4)
                 [OpStartDrag 0 300 20; OpDeleteSelectedClip])).
Proof.
  destruct (drag_of_deleted_clip
              (fst (run (selectedA 4)
                      [OpStartDrag 0 300 20; OpDeleteSelectedClip]))
              0 clipA 490 20) as (H1 & _ & H2).
  - reflexivity.
  - reflexivity.
  - reflexivity.
  - simpl; tauto.
  - split; [exact H1 | exact H2].
Defined.

(** ** Trim sessions *)

(** X12.  A trim is measured from the press, not from the previous move:
    after two pointer moves of one session the clip is what the second
    move alone would have made of it, unless the second move is a rejected
    left trim, which leaves what the first move made. *)
Theorem trim_last_move_wins (s : TrimSession) (pps : Z) (x1 x2 : Q)
    (c : Clip) :
  trimClip s pps x2 (trimClip s pps x1 c) =
  match t_side s with
  | left =>
      if Qgtb (requestedWidth s x2) 30 then trimClip s pps x2 c
      else trimClip s pps x1 c
  | right => trimClip s pps x2 c
  end.
Proof.
  unfold trimClip, requestedWidth. destruct (t_side s).
  - destruct (Qgtb (t_startWidth s - (x2 - t_startX s)) 30); [|reflexivity].
    destruct (Qgtb (t_startWidth s - (x1 - t_startX s)) 30); reflexivity.
  - reflexivity.
Qed.

(** X13.  A trim follows the pointer's direction.  At a positive
    density, for two pointer positions [x <= x'] of one session: on the
    right handle the start is untouched, the duration is never less than
    the width asked for, and the pointer further right never gives the
    shorter clip; on the left handle, when the move to [x'] is accepted
    (so the move to [x] is too), the duration is the width asked for, the
    start is never earlier than the edge asked for, and the pointer
    further right gives a start that is not earlier and a duration that
    is not longer. *)
Theorem trim_follows_direction (s : TrimSession) (pps : Z) (x x' : Q)
    (c : Clip) :
  (0 < pps)%Z -> x <= x' ->
  match t_side s with
  | right =>
      startTime (trimClip s pps x c) = startTime c
      /\ pixelsToTime (requestedWidth s x) pps
         <= duration (trimClip s pps x c)
      /\ duration (trimClip s pps x c) <= duration (trimClip s pps x' c)
  | left =>
      30 < requestedWidth s x' ->
      duration (trimClip s pps x c) = pixelsToTime (requestedWidth s x) pps
      /\ pixelsToTime (t_startLeft s + (x - t_startX s)) pps
         <= startTime (trimClip s pps x c)
      /\ startTime (trimClip s pps x c) <= startTime (trimClip s pps x' c)
      /\ duration (trimClip s pps x' c) <= duration (trimClip s pps x c)
  end.
Proof.
  intros Hp Hx. unfold trimClip, requestedWidth. destruct (t_side s).
  - intros Hw'.
    assert (Hw : 30 < t_startWidth s - (x - t_startX s)) by lra.
    apply Qgtb_true in Hw, Hw'. rewrite Hw, Hw'. simpl. unfold Math_max.
    split; [reflexivity|]. split; [|split].
    + apply pixelsToTime_le; [exact Hp | apply Q.le_max_r].
    + apply pixelsToTime_le; [exact Hp|]. apply Q.max_le_compat_l. lra.
    + apply pixelsToTime_le; [exact Hp|]. lra.
  - simpl. unfold Math_max. split; [reflexivity|]. split.
    + apply pixelsToTime_le; [exact Hp | apply Q.le_max_r].
    + apply pixelsToTime_le; [exact Hp|]. apply Q.max_le_compat_l. lra.
Qed.

Lemma trim_follows_direction_witness :
  duration (trimClip (trimSession (selectedA 4) 0 clipA right 1000) 95 810
              clipA)
  <= duration (trimClip (trimSession (selectedA 4) 0 clipA right 1000) 95
                 1200 clipA).
Proof.
  apply (trim_follows_direction
           (trimSession (selectedA 4) 0 clipA right 1000) 95 810 1200 clipA).
  - reflexivity.
  - discriminate.
Defined.

(** ** Clip elements *)

Lemma selected_elements (st : State) (l : list Clip) :
  length (List.filter el_selected (map (renderClip st) l))
  = length (List.filter (isSelected st) l).
Proof.
  induction l as [|c l IH]; [reflexivity|]. simpl.
  destruct (isSelected st c); simpl; now rewrite IH.
Qed.

Lemma selected_none (st : State) (sid : Z) (l : list Clip) :
  selectedClip st = Some sid -> ~ In sid (map id l) ->
  List.filter (isSelected st) l = [].
Proof.
  intros Hs. induction l as [|c l IH]; intros Hn; [reflexivity|].
  simpl. unfold isSelected at 1. rewrite Hs.
  destruct (Z.eqb sid (id c)) eqn:E.
  - apply Z.eqb_eq in E. exfalso. apply Hn. simpl. now left.
  - apply IH. intros H. apply Hn. simpl. now right.
Qed.

Lemma selected_count (st : State) (l : list Clip) :
  NoDup (map id l) ->
  (length (List.filter (isSelected st) l) <= 1)%nat
  /\ forall sid, selectedClip st = Some sid -> In sid (map id l) ->
       length (List.filter (isSelected st) l) = 1%nat.
Proof.
  destruct (selectedClip st) as [s|] eqn:Hs.
  - induction l as [|c l IH]; intros Hnd.
    + split; [simpl; lia | intros sid _ []].
    + simpl in Hnd. apply NoDup_cons in Hnd. destruct Hnd as [Hc Hnd].
      destruct (IH Hnd) as [IH1 IH2]. simpl.
      assert (Ec : isSelected st c = Z.eqb s (id c)).
      { unfold isSelected. now rewrite Hs. }
      rewrite Ec. destruct (Z.eqb s (id c)) eqn:E.
      * apply Z.eqb_eq in E. subst s.
        rewrite (selected_none st (id c) l Hs)
          by (intros H; apply Hc; now apply list_elem_of_In).
        split; [simpl; lia | intros; reflexivity].
      * split; [exact IH1|]. intros sid [= <-] [Hin|Hin].
        -- apply Z.eqb_neq in E. congruence.
        -- now apply (IH2 s).
  - intros _. split; [|discriminate].
    induction l as [|c l IH]; simpl; [lia|].
    assert (Ec : isSelected st c = false).
    { unfold isSelected. now rewrite Hs. }
    rewrite Ec. exact IH.
Qed.

(** X15.  When ids are pairwise distinct, [renderClips] marks at most one
    element as selected, and exactly one when the selected id is in the
    list. *)
Theorem one_element_selected (st : State) :
  NoDup (ids st) ->
  (length (List.filter el_selected (renderClips st)) <= 1)%nat
  /\ forall sid, selectedClip st = Some sid -> In sid (ids st) ->
       length (List.filter el_selected (renderClips st)) = 1%nat.
Proof.
  intros H. unfold renderClips. rewrite selected_elements.
  now apply selected_count.
Qed.

Lemma one_element_selected_witness :
  length (List.filter el_selected (renderClips (selectedA 4))) = 1%nat.
Proof.
  destruct (one_element_selected (selectedA 4)) as [_ H].
  - simpl. apply NoDup_singleton.
  - apply (H 1000%Z); [reflexivity | simpl; now left].
Defined.

(** ** Zoom *)

Lemma mouseMove_pps (st : State) (x l : Q) :
  pixelsPerSecond (mouseMove st x l) = pixelsPerSecond st.
Proof.
  apply (mouseMove_preserves
           (fun st' => pixelsPerSecond st' = pixelsPerSecond st));
    [intros st' H | intros st' s H | reflexivity].
  - rewrite <- H. unfold onDrag. repeat case_match; reflexivity.
  - rewrite <- H. unfold onTrim. repeat case_match; reflexivity.
Qed.

(** An event either leaves zoom level and density as they are or sets
    them together through [updateZoom]. *)
Lemma step_pps (st : State) (op : Op) :
  (zoom (fst (step st op)) = zoom st
   /\ pixelsPerSecond (fst (step st op)) = pixelsPerSecond st)
  \/ pixelsPerSecond (fst (step st op))
     = (20 + zoom (fst (step st op)) * 15)%Z.
Proof.
  destruct op; simpl;
    try (right; reflexivity);
    try (left; split; [apply mouseMove_zoom | apply mouseMove_pps]);
    left;
    unfold addClip, drop, splitClip, deleteSelectedClip, startTrim,
      addBackgroundMusic;
    repeat case_match; split; reflexivity.
Qed.

(** X16.  Once [initRuler] has run, the pixel density is
    [20 + zoom * 15] in every state the editor reaches, whatever the
    events; before it, the constructor's density 50 does not fit the
    initial zoom level 5. *)
Theorem density_follows_zoom (ops : list Op) :
  let st := fst (run (initRuler initial) ops) in
  pixelsPerSecond st = (20 + zoom st * 15)%Z
  /\ pixelsPerSecond initial <> (20 + zoom initial * 15)%Z.
Proof.
  intros st. split; [|simpl; lia]. subst st.
  assert (H : pixelsPerSecond (initRuler initial)
              = (20 + zoom (initRuler initial) * 15)%Z) by reflexivity.
  revert H. generalize (initRuler initial).
  induction ops as [|op ops IH]; intros st H; [exact H|].
  rewrite run_cons. apply IH.
  destruct (step_pps st op) as [[Hz Hp]|Hs]; [|exact Hs].
  now rewrite Hz, Hp.
Qed.

(** X17.  From a zoom level in [1,10], [zoomIn] followed by [zoomOut]
    returns to the level unless it started at 10, where [zoomIn] cannot
    go further and the pair ends at 9; [zoomOut] followed by [zoomIn]
    returns to the level unless it started at 1, where the pair ends at
    2. *)
Theorem zoom_there_and_back (st : State) :
  (1 <= zoom st <= 10)%Z ->
  zoom (zoomOut (zoomIn st)) = Z.min (zoom st) 9
  /\ zoom (zoomIn (zoomOut st)) = Z.max (zoom st) 2
  /\ pixelsPerSecond (zoomOut (zoomIn st)) = (20 + Z.min (zoom st) 9 * 15)%Z
  /\ pixelsPerSecond (zoomIn (zoomOut st)) = (20 + Z.max (zoom st) 2 * 15)%Z.
Proof.
  intros H. unfold zoomIn, zoomOut, updateZoom; simpl.
  repeat split; lia.
Qed.

Lemma zoom_there_and_back_witness :
  zoom (zoomOut (zoomIn (setZoom initial 10))) = 9%Z.
Proof.
  destruct (zoom_there_and_back (setZoom initial 10)) as [H _].
  - simpl; lia.
  - exact H.
Defined.

(** ** Placement across tracks *)

(** X18.  The lanes are placed independently: pushing a clip of another
    track does not move the position at which the next clip of a track is
    put; in particular a text clip and a drop on the audio lane leave the
    next position of [addClip] where it was. *)
Theorem other_track_keeps_position (st : State) (c : Clip) (tr : Track) :
  wf st -> track c <> tr ->
  getNextAvailablePosition (push st c) tr = getNextAvailablePosition st tr
  /\ (forall o,
        getNextAvailablePosition (fst (addTextClip st o)) video
        = getNextAvailablePosition st video)
  /\ (forall d x l now,
        getNextAvailablePosition (fst (drop st audio (Some d) x l now)) video
        = getNextAvailablePosition st video).
Proof.
  intros Hwf Hne.
  assert (H : forall c' tr', track c' <> tr' ->
            getNextAvailablePosition (push st c') tr'
            = getNextAvailablePosition st tr').
  { intros c' tr' Hc. unfold getNextAvailablePosition.
    rewrite (objects_push st c' Hwf), filter_app.
    rewrite (filter_cons_False _ c') by (intros E; now apply Hc).
    rewrite filter_nil, app_nil_r. reflexivity. }
  split; [now apply H|]. split.
  - intros o. apply H. discriminate.
  - intros d x l now. apply H. discriminate.
Qed.

Lemma other_track_keeps_position_witness :
  getNextAvailablePosition
    (fst (addTextClip (selectedA 4) (mkOverlay 3000 "Title" 4 5))) video
  = getNextAvailablePosition (selectedA 4) video.
Proof.
  destruct (other_track_keeps_position (selectedA 4)
              (mkClip 1 None "x" text 0 1 None None None None) video)
    as (_ & H & _).
  - repeat constructor.
  - discriminate.
  - apply H.
Defined.

(** ** Callers *)

(** X19.  [loadVideo] puts a media item on the timeline at most once:
    after it has run for an item, a clip with the item's id as [mediaId]
    is in the list, and running it again for that item changes nothing and
    emits no message. *)
Theorem loadVideo_once (st : State) (item : MediaItem) (now1 now2 : Z) :
  wf st ->
  let st1 := fst (loadVideo st item now1) in
  existsb (hasMedia item) (objects st1) = true
  /\ loadVideo st1 item now2 = (st1, []).
Proof.
  intros Hwf st1.
  assert (H : existsb (hasMedia item) (objects st1) = true).
  { subst st1. unfold loadVideo.
    destruct (existsb (hasMedia item) (objects st)) eqn:E; [exact E|].
    unfold addClip; simpl. rewrite objects_push by exact Hwf.
    rewrite existsb_app. apply orb_true_iff. right. simpl.
    unfold hasMedia; simpl. now rewrite Z.eqb_refl. }
  split; [exact H|]. unfold loadVideo at 1. now rewrite H.
Qed.

Lemma loadVideo_once_witness :
  loadVideo (fst (loadVideo initial itemA 1000)) itemA 2000
  = (fst (loadVideo initial itemA 1000), []).
Proof.
  apply (loadVideo_once initial itemA 1000 2000). constructor.
Defined.

(** X20.  [movePlayhead] only ever asks the video for a time between 0
    and the state's duration: afterwards the video's position is what it
    was or lies in that range; nothing else changes.  After the ruler's
    mouse-up a pointer move asks for nothing. *)
Theorem movePlayhead_within (a : App) (clientX rectLeft : Q) :
  let a' := movePlayhead a clientX rectLeft in
  (v_currentTime (videoEl a') = v_currentTime (videoEl a)
   \/ (0 <= v_currentTime (videoEl a')
       /\ v_currentTime (videoEl a') <= stateDuration a))
  /\ timeline a' = timeline a
  /\ stateDuration a' = stateDuration a
  /\ playheadMouseMove (playheadMouseUp a) clientX rectLeft
     = playheadMouseUp a.
Proof.
  intros a'. subst a'. unfold movePlayhead.
  destruct (Qleb _ (stateDuration a)) eqn:E; simpl.
  - split; [|repeat split]. unfold seekTo.
    destruct (hasSrc (videoEl a)); [|now left]. right. simpl.
    split; [apply Math_max_0_nonneg | now apply Qleb_true in E].
  - split; [now left | repeat split].
Qed.



(** X22.  With a source loaded and a duration that is not negative,
    [skip] leaves the video's position between 0 and the duration, and at
    the requested position when that lies in the range; without a source
    it does nothing. *)
Theorem skip_within (v : Video) (seconds : Q) :
  0 <= v_duration v ->
  (hasSrc v = true ->
   0 <= v_currentTime (skip v seconds) <= v_duration v
   /\ (0 <= v_currentTime v + seconds <= v_duration v ->
       v_currentTime (skip v seconds) == v_currentTime v + seconds))
  /\ (hasSrc v = false -> skip v seconds = v)
  /\ v_duration (skip v seconds) = v_duration v.
Proof.
  intros Hd. unfold skip. split; [|split].
  - intros ->. simpl. unfold Math_max, Math_min. split; [split|].
    + apply Q.le_max_l.
    + apply Q.max_lub; [exact Hd | apply Q.le_min_l].
    + intros [H0 H1]. rewrite (Q.min_r _ _ H1). now apply Q.max_r.
  - intros ->. reflexivity.
  - destruct (hasSrc v); reflexivity.
Qed.

Lemma skip_within_witness :
  0 <= v_currentTime (skip (mkVideo true 58 60) 5) <= 60.
Proof.
  destruct (skip_within (mkVideo true 58 60) 5) as [H _].
  - discriminate.
  - apply H. reflexivity.
Defined.


Lemma length_append (s1 s2 : string) :
  String.length (String.append s1 s2)
  = (String.length s1 + String.length s2)%nat.
Proof. induction s1 as [|ch s1 IH]; simpl; [reflexivity | now rewrite IH]. Qed.



(** ** Clips stay on the time axis *)

Lemma pixelsToTime_nonneg (x : Q) (pps : Z) :
  (0 < pps)%Z -> 0 <= x -> 0 <= pixelsToTime x pps.
Proof.
  intros Hp Hx. unfold pixelsToTime, Qdiv.
  apply Qmult_le_0_compat; [exact Hx|].
  apply Qlt_le_weak, Qinv_lt_0_compat. now apply inject_Z_pos.
Qed.

Lemma trimClip_nonnegative (s : TrimSession) (pps : Z) (x : Q) (c : Clip) :
  (0 < pps)%Z -> 0 <= startTime c /\ 0 <= duration c ->
  0 <= startTime (trimClip s pps x c) /\ 0 <= duration (trimClip s pps x c).
Proof.
  intros Hp [Hs Hd]. unfold trimClip. destruct (t_side s).
  - destruct (Qgtb _ 30) eqn:E; [|now split]. simpl. split.
    + apply pixelsToTime_nonneg; [exact Hp | apply Q.le_max_l].
    + apply pixelsToTime_nonneg; [exact Hp|]. apply Qgtb_true in E.
      apply Qlt_le_weak. eapply Qlt_trans; [|exact E]. reflexivity.
  - simpl. split; [exact Hs|]. apply pixelsToTime_nonneg; [exact Hp|].
    eapply Qle_trans; [|apply Q.le_max_l]. discriminate.
Qed.

Lemma position_nonneg (st : State) (tr : Track) :
  clips_nonnegative st -> 0 <= getNextAvailablePosition st tr.
Proof.
  intros Hpos. pose proof (getNextAvailablePosition_max st tr) as H.
  destruct (filter (fun c => track c = tr) (objects st)) as [|a l] eqn:E.
  - simpl in H. rewrite H. apply Qle_refl.
  - destruct H as [(x & Hx & ->) _]. rewrite <- E in Hx.
    apply list_elem_of_In, list_elem_of_filter in Hx. destruct Hx as [_ Hx].
    apply list_elem_of_omap in Hx. destruct Hx as (r & _ & Hr).
    unfold clips_nonnegative in Hpos. rewrite Forall_forall in Hpos.
    destruct (Hpos x) as [Hs Hd].
    { eapply list_elem_of_lookup_2; exact Hr. }
    unfold endTime. rewrite <- (Qplus_0_r 0). now apply Qplus_le_compat.
Qed.

Lemma nonnegative_push (st : State) (c : Clip) :
  nonnegative_state st -> 0 <= startTime c /\ 0 <= duration c ->
  nonnegative_state (push st c).
Proof.
  intros (Hp & Hz & Hh) Hc. split; [exact Hp|]. split; [exact Hz|].
  unfold clips_nonnegative, push; simpl. apply Forall_app.
  split; [exact Hh|]. now apply Forall_singleton.
Qed.

Lemma nonnegative_updateZoom (st : State) (z : Z) :
  nonnegative_state st -> (-1 <= z)%Z -> nonnegative_state (updateZoom st z).
Proof.
  intros (_ & _ & Hh) Hz. split; [simpl; lia|]. split; [exact Hz | exact Hh].
Qed.

Lemma nonnegative_lookup (st : State) (r : nat) (c : Clip) :
  nonnegative_state st -> heap st !! r = Some c ->
  0 <= startTime c /\ 0 <= duration c.
Proof.
  intros (_ & _ & Hh) Hr. unfold clips_nonnegative in Hh.
  rewrite Forall_forall in Hh. apply Hh.
  eapply list_elem_of_lookup_2; exact Hr.
Qed.

Lemma nonnegative_write (st : State) (r : nat) (c : Clip) :
  nonnegative_state st -> 0 <= startTime c /\ 0 <= duration c ->
  nonnegative_state (with_heap st (<[r := c]> (heap st))).
Proof.
  intros (Hp & Hz & Hh) Hc. split; [exact Hp|]. split; [exact Hz|].
  unfold clips_nonnegative; simpl. now apply Forall_insert.
Qed.

(** One event whose inputs are plausible keeps starts and durations from
    becoming negative. *)
Lemma step_nonnegative (st : State) (op : Op) :
  plausible op -> nonnegative_state st ->
  nonnegative_state (fst (step st op)).
Proof.
  intros Hop Hst. destruct op; simpl in *.
  - apply nonnegative_updateZoom; [exact Hst | apply Hst].
  - apply nonnegative_push; [exact Hst|]. simpl.
    split; [apply position_nonneg, Hst | exact Hop].
  - apply nonnegative_push; [exact Hst|]. exact Hop.
  - destruct data as [d|]; [|destruct tr; exact Hst].
    destruct tr; [| |exact Hst]; simpl;
      (apply nonnegative_push; [exact Hst|]; simpl;
       split; [apply Q.le_max_l | exact Hop]).
  - destruct (clips st !! i) as [r|]; [|exact Hst].
    destruct (heap st !! r); exact Hst.
  - exact Hst.
  - unfold splitClip.
    destruct (truthy (selectedClip st)); [|exact Hst].
    destruct (findIndex _ _ _) as [i|]; [|exact Hst].
    destruct (clips st !! i) as [r|]; [|exact Hst].
    destruct (heap st !! r) as [c|] eqn:Hr; [|exact Hst].
    destruct (Qleb _ _) eqn:E1; [exact Hst|].
    destruct (Qgeb _ _) eqn:E2; [exact Hst|]. simpl.
    assert (Hlo : startTime c < currentTime st).
    { apply Qnot_le_lt. intros H. apply Qleb_true in H. congruence. }
    assert (Hhi : currentTime st < startTime c + duration c).
    { apply Qnot_le_lt. intros H. apply Qgeb_true in H. congruence. }
    destruct (nonnegative_lookup st r c Hst Hr) as [Hc0 Hc1].
    apply nonnegative_push.
    + apply nonnegative_write; [exact Hst|]. simpl. split; [exact Hc0 | lra].
    + simpl. split; lra.
  - unfold deleteSelectedClip.
    destruct (truthy (selectedClip st)); exact Hst.
  - destruct (clips st !! i); exact Hst.
  - apply mouseMove_preserves; [| |exact Hst].
    + intros st' Hst'. unfold onDrag.
      destruct (negb (isDragging st')); [exact Hst'|].
      destruct (dragClip st') as [r|]; [|exact Hst'].
      destruct (heap st' !! r) as [c|] eqn:Hr; [|exact Hst'].
      apply nonnegative_write; [exact Hst'|]. simpl.
      split; [apply Q.le_max_l|].
      apply (nonnegative_lookup st' r c Hst' Hr).
    + intros st' s Hst'. unfold onTrim.
      destruct (heap st' !! t_clip s) as [c|] eqn:Hr; [|exact Hst'].
      apply nonnegative_write; [exact Hst'|].
      apply trimClip_nonnegative; [apply Hst'|].
      apply (nonnegative_lookup st' _ c Hst' Hr).
  - exact Hst.
  - destruct (clips st !! i) as [r|]; [|exact Hst]. simpl.
    unfold startTrim. destruct (heap st !! r); exact Hst.
  - apply nonnegative_updateZoom; [exact Hst|].
    destruct Hst as (_ & Hz & _). lia.
  - apply nonnegative_updateZoom; [exact Hst|]. lia.
  - apply nonnegative_updateZoom; [exact Hst | exact Hop].
  - apply nonnegative_push; [exact Hst|]. simpl.
    split; [discriminate | exact Hop].
Qed.

Lemma In_objects (st : State) (x : Clip) :
  In x (objects st) <-> exists r, In r (clips st) /\ heap st !! r = Some x.
Proof.
  unfold objects. rewrite <- list_elem_of_In, list_elem_of_omap.
  split; intros (r & Hr & Hx); exists r; split; try exact Hx;
    now apply list_elem_of_In.
Qed.

(** X26.  In every state the editor reaches by events with plausible
    inputs (durations of media, overlays and audio files that are not
    negative, overlays that start at a time that is not negative, zoom
    levels of at least -1), no clip of the list has a negative start or a
    negative duration, and the pixel density is positive. *)
Theorem clips_never_negative (ops : list Op) :
  Forall plausible ops ->
  let st := fst (run initial ops) in
  (0 < pixelsPerSecond st)%Z
  /\ forall c, In c (objects st) -> 0 <= startTime c /\ 0 <= duration c.
Proof.
  intros Hops st.
  assert (H : nonnegative_state st).
  { subst st.
    assert (H0 : nonnegative_state initial).
    { split; [reflexivity|]. split; [simpl; lia | constructor]. }
    revert H0. generalize initial.
    induction Hops as [|op ops Hop _ IH]; intros s Hs; [exact Hs|].
    rewrite run_cons. apply IH. now apply step_nonnegative. }
  split; [apply H|].
  intros c Hc. apply In_objects in Hc. destruct Hc as (r & _ & Hr).
  now apply (nonnegative_lookup st r c).
Qed.

Lemma clips_never_negative_witness :
  (0 < pixelsPerSecond
         (fst (run initial
                 [OpInitRuler; OpAddClip itemA 1000; OpStartDrag 0 300 20;
                  OpMouseMove 10 20;
                  OpAddBackgroundMusic "tune.mp3" 30 2000])))%Z
  /\ 0 <= startTime (set_startTime clipA (dragTime
                        (startDrag (initRuler initial) 0 300 20) 10 20))
  /\ 0 <= duration (set_startTime clipA (dragTime
                       (startDrag (initRuler initial) 0 300 20) 10 20)).
Proof.
  destruct (clips_never_negative
              [OpInitRuler; OpAddClip itemA 1000; OpStartDrag 0 300 20;
               OpMouseMove 10 20; OpAddBackgroundMusic "tune.mp3" 30 2000])
    as [Hp Hc].
  - repeat constructor; discriminate.
  - split; [exact Hp|]. apply Hc. simpl. left. reflexivity.
Defined.

(** ** The application's clock *)

Lemma two_digit_minutes (m : Z) :
  (10 <= m < 100)%Z ->
  padStart 2 "0" (Number_toString m) = Number_toString m.
Proof.
  intros Hm.
  assert (Hall : forallb
            (fun k => String.eqb (padStart 2 "0" (Number_toString k))
                        (Number_toString k))
            (seqZ 10 90) = true) by (vm_compute; reflexivity).
  rewrite forallb_forall in Hall.
  apply String.eqb_eq, Hall, list_elem_of_In, elem_of_seqZ. lia.
Qed.

(** X27.  For a time from 0 up to 100 minutes the application's clock
    label has exactly five characters, minutes and seconds in two digits
    each; from 10 minutes on it is the same text as the timeline's
    [formatTime], and below 10 minutes it is one character longer. *)
Theorem app_formatTime_fixed_width (seconds : Q) :
  0 <= seconds -> seconds < 6000 ->
  String.length (app_formatTime seconds) = 5%nat
  /\ (600 <= seconds -> app_formatTime seconds = formatTime seconds)
  /\ (seconds < 600 ->
      String.length (formatTime seconds) = 4%nat).
Proof.
  intros H0 H1.
  set (n := Qfloor seconds).
  assert (Hn : (0 <= n < 6000)%Z).
  { subst n. split.
    - rewrite <- (Qfloor_Z 0). now apply Qfloor_resp_le.
    - apply Z.lt_nge. intros Hge.
      apply (Qlt_irrefl seconds). eapply Qlt_le_trans; [exact H1|].
      eapply Qle_trans; [|apply Qfloor_le].
      change 6000 with (inject_Z 6000). now rewrite <- Zle_Qle. }
  assert (Hm : (0 <= n / 60 < 100)%Z).
  { split; [apply Z.div_pos; lia | apply Z.div_lt_upper_bound; lia]. }
  assert (Hk : (0 <= n mod 60 < 60)%Z) by (apply Z.mod_pos_bound; lia).
  assert (Ea : app_formatTime seconds =
               String.append (padStart 2 "0" (Number_toString (n / 60)))
                 (String.append ":"
                    (padStart 2 "0" (Number_toString (n mod 60))))).
  { unfold app_formatTime, Math_floor.
    rewrite Qfloor_div_60, (floor_jsRem_60 seconds H0). reflexivity. }
  assert (Ef : formatTime seconds =
               String.append (Number_toString (n / 60))
                 (String.append ":"
                    (padStart 2 "0" (Number_toString (n mod 60))))).
  { unfold formatTime, Math_floor.
    rewrite Qfloor_div_60, (floor_jsRem_60 seconds H0). reflexivity. }
  split; [|split].
  - rewrite Ea, !length_append, !two_digits by lia. reflexivity.
  - intros H600. rewrite Ea, Ef. rewrite two_digit_minutes; [reflexivity|].
    split; [|lia]. apply Z.div_le_lower_bound; [lia|].
    subst n. rewrite <- (Qfloor_Z (60 * 10)). apply Qfloor_resp_le.
    exact H600.
  - intros H600. rewrite Ef, !length_append, two_digits by lia.
    assert (Hm1 : (0 <= n / 60 < 10)%Z).
    { split; [lia|]. apply Z.div_lt_upper_bound; [lia|].
      apply Z.lt_nge. intros Hge. apply (Qlt_irrefl seconds).
      eapply Qlt_le_trans; [exact H600|].
      eapply Qle_trans; [|apply Qfloor_le].
      change 600 with (inject_Z 600). now rewrite <- Zle_Qle. }
    assert (Hall : forallb
              (fun k => Nat.eqb (String.length (Number_toString k)) 1)
              (seqZ 0 10) = true) by (vm_compute; reflexivity).
    rewrite forallb_forall in Hall.
    assert (H1d : String.length (Number_toString (n / 60)) = 1%nat).
    { apply Nat.eqb_eq, Hall, list_elem_of_In, elem_of_seqZ. lia. }
    rewrite H1d. reflexivity.
Qed.

Lemma app_formatTime_fixed_width_witness :
  String.length (app_formatTime (151 # 2)) = 5%nat.
Proof.
  apply (app_formatTime_fixed_width (151 # 2)); [discriminate | reflexivity].
Defined.

(** ** The split in double precision *)

Lemma SFcompare_Lt_swap (x y : SpecFloat.spec_float) :
  SpecFloat.SFcompare x y = Some Lt -> SpecFloat.SFcompare y x = Some Gt.
Proof.
  destruct x as [sx|sx| |sx mx ex], y as [sy|sy| |sy my ey]; simpl;
    try discriminate;
    try (destruct sx; discriminate || reflexivity);
    try (destruct sy; discriminate || reflexivity);
    try (destruct sx, sy; discriminate || reflexivity).
  pose proof (Pos.compare_cont_antisym mx my Eq) as A. simpl in A.
  destruct sx, sy; try discriminate; try reflexivity;
    rewrite (Z.compare_antisym ex ey), <- A;
    destruct (ex ?= ey)%Z; simpl; try discriminate; try reflexivity;
    destruct (Pos.compare_cont Eq mx my); simpl;
    discriminate || reflexivity.
Qed.

(** On doubles, [x < y] rules out [y <= x]. *)
Lemma ltb_not_leb (x y : PrimFloat.float) :
  PrimFloat.ltb x y = true -> PrimFloat.leb y x = false.
Proof.
  rewrite FloatAxioms.ltb_spec, FloatAxioms.leb_spec.
  unfold SpecFloat.SFltb, SpecFloat.SFleb. intros H.
  destruct (SpecFloat.SFcompare (FloatOps.Prim2SF x) (FloatOps.Prim2SF y))
    as [[| |]|] eqn:E; try discriminate.
  now rewrite (SFcompare_Lt_swap _ _ E).
Qed.

(** In the double-precision model too, [findIndex] finds the position of
    a clip when ids are pairwise distinct. *)
Lemma double_findIndex_at (h : list Double.Clip) (refs : list nat) :
  Forall (fun r => (r < length h)%nat) refs ->
  NoDup (map Double.id (omap (fun x => h !! x) refs)) ->
  forall (i r : nat) (c : Double.Clip),
    refs !! i = Some r -> h !! r = Some c ->
    Double.findIndex h refs (Double.id c) = Some i.
Proof.
  induction refs as [|r0 refs IH]; intros Hwf Hnd i r c Hi Hr;
    [discriminate|].
  apply Forall_cons in Hwf. destruct Hwf as [Hr0 Hwf].
  apply lookup_lt_is_Some_2 in Hr0. destruct Hr0 as [c0 Hc0].
  rewrite omap_cons, Hc0 in Hnd. simpl in Hnd.
  apply NoDup_cons in Hnd. destruct Hnd as [Hc Hnd].
  simpl. rewrite Hc0. destruct i as [|i]; simpl in Hi.
  - injection Hi as ->. rewrite Hr in Hc0. injection Hc0 as ->.
    now rewrite Z.eqb_refl.
  - assert (Hne : Double.id c0 <> Double.id c).
    { intros E. apply Hc. rewrite E. apply list_elem_of_In, in_map.
      apply list_elem_of_In, list_elem_of_omap. exists r.
      split; [|exact Hr]. eapply list_elem_of_lookup_2; exact Hi. }
    apply Z.eqb_neq in Hne. rewrite Hne.
    rewrite (IH Hwf Hnd i r c Hi Hr). reflexivity.
Qed.

(** C1 (as the code has it).  Let the clip [c] of the list carry the
    selected id, ids being pairwise distinct, and let the playhead [t]
    pass the code's test in double arithmetic: [c.startTime < t] and
    [t < c.startTime + c.duration].  Then [splitClip] succeeds: [c] keeps
    its start and its duration becomes the double [t - c.startTime]; a new
    clip is appended to the list with the clock value as id,
    [startTime = t], duration the double
    [c.duration - (t - c.startTime)] and every other property copied from
    [c]; no other clip object changes and the one message is
    "Clip split".  (The two durations are rounded differences; their sum
    need not be the former duration.) *)
Theorem splitClip_double (st : Double.State) (now : Z) (i r : nat)
    (c : Double.Clip) :
  Double.wf st -> NoDup (Double.ids st) ->
  Double.clips st !! i = Some r ->
  Double.heap st !! r = Some c ->
  Double.selectedClip st = Some (Double.id c) ->
  Double.id c <> 0%Z ->
  PrimFloat.ltb (Double.startTime c) (Double.currentTime st) = true ->
  PrimFloat.ltb (Double.currentTime st)
    (PrimFloat.add (Double.startTime c) (Double.duration c)) = true ->
  let t := Double.currentTime st in
  let c' := Double.set_duration c (PrimFloat.sub t (Double.startTime c)) in
  let newClip :=
    Double.mkClip now (Double.mediaId c) (Double.name c) (Double.track c) t
      (PrimFloat.sub (Double.duration c)
         (PrimFloat.sub t (Double.startTime c)))
      (Double.thumbnail c) (Double.trimStart c) (Double.trimEnd c)
      (Double.type c) in
  let st' := fst (Double.splitClip st now) in
  snd (Double.splitClip st now) = [mkToast "Clip split" success]
  /\ Double.heap st' !! r = Some c'
  /\ Double.startTime c' = Double.startTime c
  /\ Double.duration c' = PrimFloat.sub t (Double.startTime c)
  /\ Double.clips st' = Double.clips st ++ [length (Double.heap st)]
  /\ Double.heap st' !! length (Double.heap st) = Some newClip
  /\ Double.selectedClip st' = Double.selectedClip st
  /\ forall r', r' <> r -> (r' < length (Double.heap st))%nat ->
       Double.heap st' !! r' = Double.heap st !! r'.
Proof.
  intros Hwf Hnd Hi Hr Hsel Hid Hlo Hhi t c' newClip st'.
  assert (Hsplit : Double.splitClip st now =
    (Double.push (Double.with_heap st (<[r := c']> (Double.heap st)))
       newClip,
     [mkToast "Clip split" success])).
  { unfold Double.splitClip. rewrite Hsel. simpl.
    assert (Et : (Double.id c =? 0)%Z = false) by now apply Z.eqb_neq.
    rewrite Et.
    rewrite (double_findIndex_at _ _ Hwf Hnd i r c Hi Hr), Hi, Hr.
    rewrite (ltb_not_leb _ _ Hlo), (ltb_not_leb _ _ Hhi). reflexivity. }
  pose proof (lookup_lt_Some _ _ _ Hr) as Hlt.
  subst st'. rewrite Hsplit. simpl.
  split; [reflexivity|].
  split.
  { rewrite lookup_app_l by (rewrite length_insert; exact Hlt).
    now apply list_lookup_insert_eq. }
  split; [reflexivity|]. split; [reflexivity|].
  rewrite length_insert.
  split; [reflexivity|].
  split.
  { apply list_lookup_middle. now rewrite length_insert. }
  split; [reflexivity|].
  intros r' Hne Hr'.
  rewrite lookup_app_l by (rewrite length_insert; exact Hr').
  apply list_lookup_insert_ne. congruence.
Qed.

Lemma splitClip_double_witness :
  Double.heap (fst (Double.splitClip Double.tenAtFour 2000)) !! 0%nat
  = Some Double.tenAfterSplit
  /\ Double.clips (fst (Double.splitClip Double.tenAtFour 2000))
     = [0%nat; 1%nat].
Proof.
  destruct (splitClip_double Double.tenAtFour 2000 0 0 Double.tenClip)
    as (_ & H1 & _ & _ & H2 & _).
  - repeat constructor.
  - simpl. apply NoDup_singleton.
  - reflexivity.
  - reflexivity.
  - reflexivity.
  - discriminate.
  - reflexivity.
  - reflexivity.
  - split; [exact H1 | exact H2].
Defined.

(** C1 (as stated) fails in the code's arithmetic: the clip [0, 1.8)
    split at 0.384 is left with the durations 0.384 and
    1.8 - 0.384 = 1.4159999999999999, whose sum is the double
    1.7999999999999998 and not 1.8. *)
Lemma split_sum_inexact :
  ~ (forall (st : Double.State) (now : Z) (r : nat) (c c' n : Double.Clip),
       Double.heap st !! r = Some c ->
       PrimFloat.ltb (Double.startTime c) (Double.currentTime st) = true ->
       PrimFloat.ltb (Double.currentTime st)
         (PrimFloat.add (Double.startTime c) (Double.duration c)) = true ->
       Double.heap (fst (Double.splitClip st now)) !! r = Some c' ->
       Double.heap (fst (Double.splitClip st now))
         !! length (Double.heap st) = Some n ->
       PrimFloat.eqb (PrimFloat.add (Double.duration c') (Double.duration n))
         (Double.duration c) = true).
Proof.
  intros H.
  specialize (H Double.shortAtFraction 2000%Z 0%nat _ _ _
                eq_refl eq_refl eq_refl eq_refl eq_refl).
  vm_compute in H. discriminate H.
Qed.
